(** * Gift-drop bot: drop lifecycle, claim arbitration, scheduler and store

    A shallow embedding of [src/index.js].  The process-wide [storage]
    object, the durable snapshot written by [saveStorage], the pending
    [setTimeout] callbacks and the externally visible effects are gathered
    in one [World] record that every handler transforms.  Values returned by
    [Date.now()] and [Math.random()], and the answers of the chat platform,
    are inputs of the handlers. *)

From Stdlib Require Import QArith Qround Ascii.
From stdpp Require Import gmap strings list fin_maps pretty sorting.

Local Open Scope Z_scope.

(** ** Helpers (index.js, lines 86-90) *)

(** A value returned by [Math.random()]: a number in [0, 1).  Draws are
    rationals, of which the doubles are some. *)
Definition unit_draw (r : Q) : Prop := (0 <= r)%Q ∧ (r < 1)%Q.

(** [Math.floor(Math.random() * n)] for the draw [r].  The product is exact
    here, where the source rounds it to a double before flooring: for a draw
    whose product lies within one rounding step below an integer the source
    gets that integer and this function the one below.  Both stay within
    [0 .. n-1], which is all the properties below take from it. *)
Definition floor_scaled (r : Q) (n : Z) : Z := Qfloor (r * inject_Z n).

(** [randInt = (min, max) => Math.floor(Math.random() * (max - min + 1)) + min] *)
Definition randInt (min max : Z) (r : Q) : Z :=
  floor_scaled r (max - min + 1) + min.

(** [makeDropId = () => `drop_${Date.now()}_${Math.floor(Math.random() * 10000)}`] *)
Definition makeDropId (now : Z) (r : Q) : string :=
  "drop_" +:+ pretty now +:+ "_" +:+ pretty (floor_scaled r 10000).

(** [buttonIdFor = (dropId, boxIndex) => `collect:${dropId}:${boxIndex}`] *)
Definition buttonIdFor (dropId : string) (boxIndex : Z) : string :=
  "collect:" +:+ dropId +:+ ":" +:+ pretty boxIndex.

(** [`box_${i}`] for a slot index held as a number. *)
Definition boxName (i : Z) : string := "box_" +:+ pretty i.

(** ** Winning slots (sendGiftDrop, lines 192-198) *)

(** [[idx[i], idx[j]] = [idx[j], idx[i]]].  Both positions are inside the
    array whenever [j <= i < idx.length], which is the only way the loop
    below calls it on draws of [Math.random()]; outside that range the model
    leaves the array as it is. *)
Definition swap (idx : list Z) (i j : nat) : list Z :=
  match idx !! i, idx !! j with
  | Some a, Some b => <[j := a]> (<[i := b]> idx)
  | _, _ => idx
  end.

(** The loop [for (let i = idx.length - 1; i > 0; i--)], entered with loop
    variable [i]; [pick i] is the [j] chosen in the iteration for [i]. *)
Fixpoint fisher_yates (pick : nat → nat) (i : nat) (idx : list Z) : list Z :=
  match i with
  | O => idx
  | S i' => fisher_yates pick i' (swap idx i (pick i))
  end.

(** [j = Math.floor(Math.random() * (i + 1))], where [rnd i] is the draw
    made in the iteration for [i]. *)
Definition pick_of (rnd : nat → Q) (i : nat) : nat :=
  Z.to_nat (floor_scaled (rnd i) (Z.of_nat i + 1)).

Definition shuffled (rnd : nat → Q) : list Z :=
  let idx := [0; 1; 2; 3] in
  fisher_yates (pick_of rnd) (length idx - 1)%nat idx.

(** [realIndices = idx.slice(0, 2)] *)
Definition realIndices (rnd : nat → Q) : list Z := take 2 (shuffled rnd).

(** [validBoxes = realIndices.map(i => `box_${i}`)] *)
Definition validBoxesOf (rnd : nat → Q) : list string :=
  boxName <$> realIndices rnd.

(** ** Stored state (index.js, lines 49-58, 199, 226-227) *)

(** An entry of [storage.activeDrops].  [collectedBy] is the object mapping
    a box id to the id of the member who collected it; [messageId] and
    [channelId] are absent until the drop message has been sent. *)
Record Drop := mkDrop {
  createdAt : Z;
  expiresAt : Z;
  validBoxes : list string;
  collectedBy : gmap string string;
  messageId : option string;
  channelId : option string
}.

Record BotSettings := mkSettings {
  autoDropEnabled : bool;
  dropChannelId : option string
}.

Record Storage := mkStorage {
  userCounts : gmap string Z;
  activeDrops : gmap string Drop;
  botSettings : BotSettings
}.

(** Pending [setTimeout] callbacks. *)
Inductive Callback :=
  | Cleanup (dropId channel message : string)
  | SafetyExpiry (dropId : string)
  | AutoDrop.

Record Timer := mkTimer { delay : Z; callback : Callback }.

(** What a button press is answered with. *)
Inductive TrollResult :=
  | GuildMissing | RoleUnavailable | RoleHierarchy | RoleAssigned | RoleAssignFailed.

Inductive ClaimOutcome :=
  | DropNotFound
  | DropExpired
  | SlotAlreadyClaimed
  | MemberMissing
  | MemberAlreadyClaimed
  | Prize (count : Z)
  | Trollbox (r : TrollResult).

(** Effects that leave the process, in the order they happen. *)
Inductive Effect :=
  | Saved (snapshot : Storage)
  | SaveFailed
  | Rendered (dropId message : string)
  | RenderFailed (dropId : string)
  | Replied (member : option string) (o : ClaimOutcome)
  | RoleAdded (member : string)
  | ButtonDisabled (dropId boxIndex : string)
  | MessageDeleted (message : string).

(** The process and its surroundings: the in-memory [storage], the content of
    the storage file ([None] while there is no file), whether
    [fs.writeFileSync] succeeds, the armed timers (oldest first) and the
    effects so far (oldest first). *)
Record World := mkWorld {
  storage : Storage;
  disk : option Storage;
  writable : bool;
  timers : list Timer;
  trace : list Effect
}.

Definition withStorage (s : Storage) (w : World) : World :=
  mkWorld s (disk w) (writable w) (timers w) (trace w).

Definition emit (e : Effect) (w : World) : World :=
  mkWorld (storage w) (disk w) (writable w) (timers w) (trace w ++ [e]).

(** [setTimeout(cb, ms)] *)
Definition setTimeout (cb : Callback) (ms : Z) (w : World) : World :=
  mkWorld (storage w) (disk w) (writable w) (timers w ++ [mkTimer ms cb]) (trace w).

Definition withDrops (f : gmap string Drop → gmap string Drop) (w : World) : World :=
  withStorage (mkStorage (userCounts (storage w)) (f (activeDrops (storage w)))
                         (botSettings (storage w))) w.

Definition withCounts (f : gmap string Z → gmap string Z) (w : World) : World :=
  withStorage (mkStorage (f (userCounts (storage w))) (activeDrops (storage w))
                         (botSettings (storage w))) w.

Definition withSettings (b : BotSettings) (w : World) : World :=
  withStorage (mkStorage (userCounts (storage w)) (activeDrops (storage w)) b) w.

(** [saveStorage] (lines 78-84): overwrite the file with the whole in-memory
    storage; a failed write is logged and swallowed. *)
Definition saveStorage (w : World) : World :=
  if writable w
  then emit (Saved (storage w))
            (mkWorld (storage w) (Some (storage w)) (writable w) (timers w) (trace w))
  else emit SaveFailed w.

(** ** Sending a drop (sendGiftDrop, lines 187-259) *)

Definition DROP_EXPIRE_HOURS : Z := 48.
Definition DROP_MESSAGE_LIFETIME_MS : Z := 10 * 1000.

(** The readings and draws one call consumes, in source order: [Date.now()]
    and [Math.random()] inside [makeDropId], [Date.now()] for [createdAt],
    the draws of the shuffle, and [Date.now()] when the safety timer is
    armed. *)
Record DropEnv := mkDropEnv {
  idClock : Z;
  idRand : Q;
  createdClock : Z;
  shuffleRand : nat → Q;
  armClock : Z
}.

Definition newDropId (env : DropEnv) : string := makeDropId (idClock env) (idRand env).

Definition newDrop (env : DropEnv) : Drop :=
  let createdAt := createdClock env in
  let expiresAt := createdAt + DROP_EXPIRE_HOURS * 60 * 60 * 1000 in
  mkDrop createdAt expiresAt (validBoxesOf (shuffleRand env)) ∅ None None.

(** Lines 189-199: everything up to the call of [channel.send], which is
    where the function first suspends. *)
Definition sendGiftDrop_begin (env : DropEnv) (w : World) : World :=
  withDrops (<[newDropId env := newDrop env]>) w.

Definition setMessageRef (message channel : string) (d : Drop) : Drop :=
  mkDrop (createdAt d) (expiresAt d) (validBoxes d) (collectedBy d)
         (Some message) (Some channel).

(** Lines 225-258: what happens once [channel.send] has settled.  [sent] is
    the id of the message when the send succeeded, [None] when it threw (the
    surrounding [catch] logs and the function ends).  The two assignments
    through [storage.activeDrops[dropId]] throw when the entry is gone, with
    the same end. *)
Definition sendGiftDrop_resume (env : DropEnv) (channel : string)
    (sent : option string) (w : World) : World :=
  let dropId := newDropId env in
  match sent with
  | None => emit (RenderFailed dropId) w
  | Some message =>
      let w := emit (Rendered dropId message) w in
      match activeDrops (storage w) !! dropId with
      | None => w
      | Some d =>
          let w := withDrops (<[dropId := setMessageRef message channel d]>) w in
          let w := saveStorage w in
          let w := setTimeout (Cleanup dropId channel message) DROP_MESSAGE_LIFETIME_MS w in
          setTimeout (SafetyExpiry dropId)
                     (Z.max 0 (expiresAt (newDrop env) - armClock env)) w
      end
  end.

(** A call during which nothing else runs while [channel.send] is awaited. *)
Definition sendGiftDrop (env : DropEnv) (channel : string) (sent : option string)
    (w : World) : World :=
  sendGiftDrop_resume env channel sent (sendGiftDrop_begin env w).

(** The callback of the first timer (lines 231-244): drop the entry if it is
    still there, then try to delete the message. [deleted] tells whether the
    channel was fetched and the message deleted. *)
Definition fireCleanup (dropId message : string) (deleted : bool) (w : World) : World :=
  let w := match activeDrops (storage w) !! dropId with
           | Some _ => saveStorage (withDrops (delete dropId) w)
           | None => w
           end in
  if deleted then emit (MessageDeleted message) w else w.

(** The callback of the second timer (lines 247-253). *)
Definition fireSafetyExpiry (dropId : string) (w : World) : World :=
  match activeDrops (storage w) !! dropId with
  | Some _ => saveStorage (withDrops (delete dropId) w)
  | None => w
  end.

(** ** Collecting a box (interactionCreate, lines 264-362) *)

(** What the platform answers while a troll box is handled: whether
    [ensureSantaRole] returned a role, whether the hierarchy test lets the
    bot assign it, and whether [member.roles.add] resolved. *)
Record GuildEnv := mkGuildEnv {
  roleReady : bool;
  botOutranksRole : bool;
  roleAddSucceeds : bool
}.

(** A press of a collect button: [dropId] and [boxIndex] as split from the
    custom id, [interaction.member] (its id), the reading of [Date.now()],
    [interaction.guild], and whether the drop message can still be fetched
    when the button is to be disabled. *)
Record ButtonPress := mkPress {
  btnDropId : string;
  btnBoxIndex : string;
  btnMember : option string;
  btnNow : Z;
  btnGuild : option GuildEnv;
  btnMessageLive : bool
}.

(** JavaScript truthiness of [obj[key]] for an object holding strings: a
    missing key reads [undefined], and the empty string is falsy too. *)
Definition truthy (v : option string) : bool :=
  match v with
  | Some s => bool_decide (s ≠ "")
  | None => false
  end.

(** [Object.values(obj).includes(x)] *)
Definition valuesInclude (obj : gmap string string) (x : string) : bool :=
  bool_decide (x ∈ (map_to_list obj).*2).

(** [drop.collectedBy[boxId] = member.id] *)
Definition setCollected (boxId member : string) (d : Drop) : Drop :=
  mkDrop (createdAt d) (expiresAt d) (validBoxes d)
         (<[boxId := member]> (collectedBy d)) (messageId d) (channelId d).

(** Lines 333-359: disable the pressed button if the message is still there.
    Without a guild the read of [interaction.guild.channels] throws inside
    the [try] and nothing is edited. *)
Definition disableButton (i : ButtonPress) (w : World) : World :=
  match btnGuild i with
  | Some _ =>
      if btnMessageLive i then emit (ButtonDisabled (btnDropId i) (btnBoxIndex i)) w
      else w
  | None => w
  end.

(** Lines 302-330: the troll-box branch, after the claim has been stored. *)
Definition trollBox (i : ButtonPress) (member : string) (w : World)
    : ClaimOutcome * World :=
  let answer r w := (Trollbox r, emit (Replied (Some member) (Trollbox r)) w) in
  match btnGuild i with
  | None => answer GuildMissing w
  | Some g =>
      if negb (roleReady g) then answer RoleUnavailable w
      else if negb (botOutranksRole g) then answer RoleHierarchy w
      else if roleAddSucceeds g then
        let '(o, w) := answer RoleAssigned (emit (RoleAdded member) w) in
        (o, disableButton i w)
      else answer RoleAssignFailed w
  end.

Definition collect (i : ButtonPress) (w : World) : ClaimOutcome * World :=
  let dropId := btnDropId i in
  let boxId := "box_" +:+ btnBoxIndex i in
  let answer o w := (o, emit (Replied (btnMember i) o) w) in
  match activeDrops (storage w) !! dropId with
  | None => answer DropNotFound w
  | Some drop =>
      if bool_decide (btnNow i > expiresAt drop) then
        answer DropExpired (saveStorage (withDrops (delete dropId) w))
      else if truthy (collectedBy drop !! boxId) then answer SlotAlreadyClaimed w
      else match btnMember i with
      | None => answer MemberMissing w
      | Some member =>
          if valuesInclude (collectedBy drop) member then answer MemberAlreadyClaimed w
          else
            let isReal := bool_decide (boxId ∈ validBoxes drop) in
            let w := withDrops (<[dropId := setCollected boxId member drop]>) w in
            let w := saveStorage w in
            if isReal then
              let count := default 0 (userCounts (storage w) !! member) + 1 in
              let w := withCounts (<[member := count]>) w in
              let '(o, w) := answer (Prize count) w in
              (o, disableButton i w)
            else trollBox i member w
      end
  end.

(** ** Owner commands (lines 426-450) *)

(** [/set_drop_channel]: [channel] is the id of the chosen channel when it is
    a text channel. *)
Definition set_drop_channel (isOwner : bool) (channel : option string) (w : World)
    : World :=
  if negb isOwner then w
  else match channel with
  | None => w
  | Some c => saveStorage (withSettings (mkSettings true (Some c)) w)
  end.

(** [/reset_counts] *)
Definition reset_counts (isOwner : bool) (w : World) : World :=
  if negb isOwner then w else saveStorage (withCounts (λ _, ∅) w).

(** [/toggle_auto] *)
Definition toggle_auto (isOwner : bool) (w : World) : World :=
  if negb isOwner then w
  else
    let b := botSettings (storage w) in
    saveStorage (withSettings (mkSettings (negb (autoDropEnabled b)) (dropChannelId b)) w).

(** ** Scheduler (lines 459-496) *)

(** [scheduleNextDrop]: [r] is the draw [randInt(5, 10)] makes. *)
Definition scheduleNextDrop (r : Q) (w : World) : World :=
  let minutes := randInt 5 10 r in
  let delay := minutes * 60 * 1000 in
  setTimeout AutoDrop delay w.

(** What the loop over the cached guilds meets in one guild: no text channel
    with the configured id, a channel into which a drop is sent, or an
    exception (which leaves the loop for the [catch]). *)
Inductive GuildStep :=
  | NoChannel
  | DropInto (env : DropEnv) (channel : string) (sent : option string)
  | Throws.

Fixpoint dropInGuilds (steps : list GuildStep) (w : World) : World :=
  match steps with
  | [] => w
  | NoChannel :: rest => dropInGuilds rest w
  | DropInto env channel sent :: rest => dropInGuilds rest (sendGiftDrop env channel sent w)
  | Throws :: _ => w
  end.

(** The callback armed by [scheduleNextDrop], run with nothing else in
    between: the [try] block, then the [finally] block with the draw [r].
    The callback awaits inside its loop (the fetch of the channel,
    [sendGiftDrop], [sleep]), so other units of work can run before the
    [finally] block; [SchedEvent] below splits the callback there. *)
Definition fireAutoDrop (steps : list GuildStep) (r : Q) (w : World) : World :=
  let targetChannelId := dropChannelId (botSettings (storage w)) in
  let w := if truthy targetChannelId then dropInGuilds steps w else w in
  scheduleNextDrop r w.

(** The part of the [ready] handler that follows [loadStorage] (lines
    464-469). *)
Definition ready (r : Q) (w : World) : World :=
  let b := botSettings (storage w) in
  if autoDropEnabled b && truthy (dropChannelId b)
  then scheduleNextDrop r w
  else w.

(** ** Units of work

    Handlers and timer callbacks run one at a time and interleave only where
    one of them awaits; [sendGiftDrop] is therefore split at its [await]. *)

Global Instance Callback_eq_dec : EqDecision Callback.
Proof. solve_decision. Defined.

(** A timer that fires leaves the set of armed timers. *)
Fixpoint disarmFirst (cb : Callback) (ts : list Timer) : list Timer :=
  match ts with
  | [] => []
  | t :: rest => if bool_decide (callback t = cb) then rest else t :: disarmFirst cb rest
  end.

Definition disarm (cb : Callback) (w : World) : World :=
  mkWorld (storage w) (disk w) (writable w) (disarmFirst cb (timers w)) (trace w).

Inductive Event :=
  | Press (i : ButtonPress)
  | DropBegin (env : DropEnv)
  | DropResume (env : DropEnv) (channel : string) (sent : option string)
  | CleanupFires (dropId channel message : string) (deleted : bool)
  | SafetyFires (dropId : string)
  | AutoDropFires (steps : list GuildStep) (r : Q)
  | SetDropChannel (isOwner : bool) (channel : option string)
  | ResetCounts (isOwner : bool)
  | ToggleAuto (isOwner : bool).

Definition step (e : Event) (w : World) : World :=
  match e with
  | Press i => (collect i w).2
  | DropBegin env => sendGiftDrop_begin env w
  | DropResume env channel sent => sendGiftDrop_resume env channel sent w
  | CleanupFires dropId channel message deleted =>
      fireCleanup dropId message deleted (disarm (Cleanup dropId channel message) w)
  | SafetyFires dropId => fireSafetyExpiry dropId (disarm (SafetyExpiry dropId) w)
  | AutoDropFires steps r => fireAutoDrop steps r (disarm AutoDrop w)
  | SetDropChannel isOwner channel => set_drop_channel isOwner channel w
  | ResetCounts isOwner => reset_counts isOwner w
  | ToggleAuto isOwner => toggle_auto isOwner w
  end.

Definition run (es : list Event) (w : World) : World := foldl (flip step) w es.

(** The ids under which an event registers a new drop. *)
Fixpoint createdBySteps (steps : list GuildStep) : list string :=
  match steps with
  | [] => []
  | NoChannel :: rest => createdBySteps rest
  | DropInto env _ _ :: rest => newDropId env :: createdBySteps rest
  | Throws :: _ => []
  end.

Definition createdBy (e : Event) : list string :=
  match e with
  | DropBegin env => [newDropId env]
  | AutoDropFires steps _ => createdBySteps steps
  | _ => []
  end.


(** Every member id recorded in the drop is a non-empty string, as the ids
    the platform hands out are. *)
Definition claimantsNonEmpty (d : Drop) : Prop :=
  ∀ k v, collectedBy d !! k = Some v → v ≠ "".

(** The same of every live drop, and of the members pressing buttons. *)
Definition dropsNamed (w : World) : Prop :=
  map_Forall (λ _ d, claimantsNonEmpty d) (activeDrops (storage w)).

Definition pressNamed (e : Event) : Prop :=
  match e with
  | Press i => btnMember i ≠ Some ""
  | _ => True
  end.

(** Two worlds that differ at most in the effects recorded so far. *)
Definition sameState (w1 w2 : World) : Prop :=
  storage w1 = storage w2 ∧ disk w1 = disk w2
  ∧ writable w1 = writable w2 ∧ timers w1 = timers w2.

(** The branches of [collect]: the conditions under which each is taken, its
    outcome, and the world it leaves (up to the effects recorded). *)
Inductive CollectCase (i : ButtonPress) (w : World) : ClaimOutcome * World → Prop :=
  | case_not_found w' :
      activeDrops (storage w) !! btnDropId i = None →
      sameState w' w →
      CollectCase i w (DropNotFound, w')
  | case_expired d w' :
      activeDrops (storage w) !! btnDropId i = Some d →
      btnNow i > expiresAt d →
      sameState w' (saveStorage (withDrops (delete (btnDropId i)) w)) →
      CollectCase i w (DropExpired, w')
  | case_slot d w' :
      activeDrops (storage w) !! btnDropId i = Some d →
      btnNow i ≤ expiresAt d →
      truthy (collectedBy d !! ("box_" +:+ btnBoxIndex i)) = true →
      sameState w' w →
      CollectCase i w (SlotAlreadyClaimed, w')
  | case_no_member d w' :
      activeDrops (storage w) !! btnDropId i = Some d →
      btnNow i ≤ expiresAt d →
      truthy (collectedBy d !! ("box_" +:+ btnBoxIndex i)) = false →
      btnMember i = None →
      sameState w' w →
      CollectCase i w (MemberMissing, w')
  | case_member d member w' :
      activeDrops (storage w) !! btnDropId i = Some d →
      btnNow i ≤ expiresAt d →
      truthy (collectedBy d !! ("box_" +:+ btnBoxIndex i)) = false →
      btnMember i = Some member →
      valuesInclude (collectedBy d) member = true →
      sameState w' w →
      CollectCase i w (MemberAlreadyClaimed, w')
  | case_prize d member w' :
      let boxId := "box_" +:+ btnBoxIndex i in
      let count := default 0 (userCounts (storage w) !! member) + 1 in
      activeDrops (storage w) !! btnDropId i = Some d →
      btnNow i ≤ expiresAt d →
      truthy (collectedBy d !! boxId) = false →
      btnMember i = Some member →
      valuesInclude (collectedBy d) member = false →
      boxId ∈ validBoxes d →
      sameState w'
        (withCounts (<[member := count]>)
           (saveStorage
              (withDrops (<[btnDropId i := setCollected boxId member d]>) w))) →
      CollectCase i w (Prize count, w')
  | case_troll d member r w' :
      let boxId := "box_" +:+ btnBoxIndex i in
      activeDrops (storage w) !! btnDropId i = Some d →
      btnNow i ≤ expiresAt d →
      truthy (collectedBy d !! boxId) = false →
      btnMember i = Some member →
      valuesInclude (collectedBy d) member = false →
      boxId ∉ validBoxes d →
      sameState w'
        (saveStorage (withDrops (<[btnDropId i := setCollected boxId member d]>) w)) →
      CollectCase i w (Trollbox r, w').

(** A concrete world used in the examples: one live drop whose real boxes
    are 0 and 1, nothing collected yet. *)
Definition drop0 : Drop :=
  mkDrop 1000 (1000 + 48 * 60 * 60 * 1000) ["box_0"; "box_1"] ∅ (Some "m1") (Some "c1").

Definition storage0 : Storage :=
  mkStorage ∅ {[ "drop_1000_7" := drop0 ]} (mkSettings false None).

Definition world0 : World := mkWorld storage0 (Some storage0) true [] [].

Definition press (box member : string) (now : Z) : ButtonPress :=
  mkPress "drop_1000_7" box (Some member) now (Some (mkGuildEnv true true true)) true.


(** ** Loading the snapshot (loadStorage, lines 60-76)

    [loadStorage] works on whatever [JSON.parse] returns, so it is modelled
    on untyped JavaScript values; an object is the list of its own
    properties in insertion order. *)
Module Js.

#[local] Set Warnings "-register-all".

Inductive Value :=
  | Undefined
  | Null
  | Bool (b : bool)
  | Num (q : Q)
  | Str (s : string)
  | Arr (items : list Value)
  | Obj (props : list (string * Value)).

Abbreviation Object := (list (string * Value)).

Definition isTruthy (v : Value) : bool :=
  match v with
  | Undefined | Null => false
  | Bool b => b
  | Num q => negb (Qeq_bool q 0)
  | Str s => bool_decide (s ≠ "")
  | Arr _ | Obj _ => true
  end.

(** [a || b] *)
Definition orElse (a b : Value) : Value := if isTruthy a then a else b.

(** [obj[key]] *)
Fixpoint getProp (key : string) (obj : Object) : Value :=
  match obj with
  | [] => Undefined
  | (k, v) :: rest => if String.eqb k key then v else getProp key rest
  end.

(** [obj[key] = v] *)
Fixpoint setProp (key : string) (v : Value) (obj : Object) : Object :=
  match obj with
  | [] => [(key, v)]
  | (k, v') :: rest =>
      if String.eqb k key then (k, v) :: rest else (k, v') :: setProp key v rest
  end.

(** [v.key]; reading a property of [undefined] or [null] throws. *)
Definition readField (v : Value) (key : string) : option Value :=
  match v with
  | Undefined | Null => None
  | Obj props => Some (getProp key props)
  | _ => Some Undefined
  end.

Definition indexed (items : list Value) : Object :=
  imap (λ i v, (pretty i, v)) items.

Fixpoint chars (s : string) : list Value :=
  match s with
  | EmptyString => []
  | String c rest => Str (String c EmptyString) :: chars rest
  end.

(** The own enumerable properties [Object.assign] copies from a source. *)
Definition ownProps (v : Value) : Object :=
  match v with
  | Obj props => props
  | Arr items => indexed items
  | Str s => indexed (chars s)
  | _ => []
  end.

(** [Object.assign(target, source)], as far as own properties go.  A source
    key named [__proto__] is kept as an ordinary property here, whereas the
    assignment in the source runs the prototype setter; and [getProp] reads
    own properties only.  For the three fields [storage] owns
    ([userCounts], [activeDrops], [botSettings]) the two agree, and the
    properties below are about these. *)
Definition assign (target : Object) (source : Value) : Object :=
  foldl (λ acc kv, setProp kv.1 kv.2 acc) target (ownProps source).

(** The storage file as [loadStorage] meets it: absent, unreadable, empty
    (read as ['{}']), rejected by [JSON.parse], or parsed to a value. *)
Inductive File :=
  | Absent
  | Unreadable
  | Empty
  | Malformed
  | Parsed (v : Value).

(** Lines 51-58; [dropChannel] is the constant [DROP_CHANNEL_ID], which is
    [null] or a non-empty string. *)
Definition initialStorage (dropChannel : option string) : Object :=
  [ ("userCounts", Obj []);
    ("activeDrops", Obj []);
    ("botSettings",
      Obj [ ("autoDropEnabled", Bool (bool_decide (is_Some dropChannel)));
            ("dropChannelId", from_option Str Null dropChannel) ]) ].

Definition applyParsed (parsed : Value) (storage : Object) : Object :=
  let storage := assign storage parsed in
  let storage :=
    setProp "userCounts" (orElse (getProp "userCounts" storage) (Obj [])) storage in
  let storage :=
    setProp "activeDrops" (orElse (getProp "activeDrops" storage) (Obj [])) storage in
  setProp "botSettings"
          (orElse (getProp "botSettings" storage) (getProp "botSettings" storage)) storage.

(** The new [storage], and whether [saveStorage] was called. *)
Definition loadStorage (file : File) (storage : Object) : Object * bool :=
  match file with
  | Absent => (storage, true)
  | Unreadable | Malformed => (storage, true)
  | Empty => (applyParsed (Obj []) storage, false)
  | Parsed v => (applyParsed v storage, false)
  end.

(** Line 464 of the [ready] handler reads
    [storage.botSettings.autoDropEnabled]; [None] when that throws. *)
Definition readAutoDropEnabled (storage : Object) : option Value :=
  readField (getProp "botSettings" storage) "autoDropEnabled".

End Js.

(** ** Vocabulary of the properties *)

(** Every draw of a run of the shuffle comes from [Math.random()]. *)
Definition unit_draws (rnd : nat → Q) : Prop := ∀ i, unit_draw (rnd i).

(** The choices [(j3, j2, j1)] of the three iterations of the shuffle, and
    draws that lead to them. *)
Definition pickTriple (t : nat * nat * nat) (i : nat) : nat :=
  match i with
  | 3%nat => t.1.1
  | 2%nat => t.1.2
  | 1%nat => t.2
  | _ => 0%nat
  end.

Definition drawsFor (t : nat * nat * nat) (i : nat) : Q :=
  Z.of_nat (pickTriple t i) # Pos.of_nat (i + 1).

(** The 24 equally likely runs of the shuffle. *)
Definition allPicks : list (nat * nat * nat) :=
  j3 ← seq 0 4; j2 ← seq 0 3; j1 ← seq 0 2; [(j3, j2, j1)].

(** The runs of the shuffle whose first two entries are [a] and [b], in
    either order. *)
Definition runsWinning (a b : Z) : list (nat * nat * nat) :=
  filter (λ t, take 2 (fisher_yates (pickTriple t) 3 [0; 1; 2; 3]) ≡ₚ [a; b]) allPicks.

(** What every run of the shuffle must deliver: a permutation of the four
    indices whose first two give two distinct box names among the four. *)
Definition wellShuffled (l : list Z) : Prop :=
  l ≡ₚ [0; 1; 2; 3]
  ∧ length (boxName <$> take 2 l) = 2%nat
  ∧ NoDup (boxName <$> take 2 l)
  ∧ boxName <$> take 2 l ⊆ ["box_0"; "box_1"; "box_2"; "box_3"].

#[local] Instance wellShuffled_dec l : Decision (wellShuffled l).
Proof. unfold wellShuffled. apply _. Defined.

(** [c] occurs in [s]. *)
Fixpoint occurs (c : Ascii.ascii) (s : string) : bool :=
  match s with
  | EmptyString => false
  | String c' rest => if Ascii.eqb c c' then true else occurs c rest
  end.

(** The drop [d] is shown only once a snapshot holding it has been written:
    every [Rendered d] in the effects is preceded by such a [Saved]. *)
Definition persistedBeforeRender (d : string) (tr : list Effect) : Prop :=
  ∀ pre message post,
    tr = pre ++ Rendered d message :: post →
    ∃ snapshot, Saved snapshot ∈ pre ∧ is_Some (activeDrops snapshot !! d).

(** The timers that belong to the scheduler. *)
Definition schedulerTimers (w : World) : list Timer :=
  filter (λ t, callback t = AutoDrop) (timers w).

(** A process that started with automatic drops disabled and no file. *)
Definition worldIdle : World :=
  mkWorld (mkStorage ∅ ∅ (mkSettings false None)) None true [] [].

Definition env0 : DropEnv :=
  mkDropEnv 1700000000000 (1 # 2) 1700000000000 (λ _, 0%Q) 1700000000001.

(** ** Button ids (lines 90, 214-222, 264-268) *)

(** [s.split(':')] *)
Fixpoint splitColon (s : string) : list string :=
  match s with
  | EmptyString => [EmptyString]
  | String c rest =>
      if Ascii.eqb c ":" then EmptyString :: splitColon rest
      else match splitColon rest with
           | [] => [String c EmptyString]
           | part :: parts => String c part :: parts
           end
  end.

(** An array element spliced into a template literal: a missing one reads
    [undefined]. *)
Definition spliced (v : option string) : string := default "undefined" v.

(** Lines 265-267: [None] when the id does not start with ['collect:'],
    otherwise [dropId] and [boxIndex] as destructured from the split. *)
Definition parseCustomId (custom : string) : option (string * string) :=
  if String.prefix "collect:" custom then
    let parts := splitColon custom in
    Some (spliced (parts !! 1%nat), spliced (parts !! 2%nat))
  else None.

(** The button branch of the [interactionCreate] handler. *)
Definition onButton (custom : string) (member : option string) (now : Z)
    (guild : option GuildEnv) (messageLive : bool) (w : World)
    : option ClaimOutcome * World :=
  match parseCustomId custom with
  | None => (None, w)
  | Some (dropId, boxIndex) =>
      let '(o, w) := collect (mkPress dropId boxIndex member now guild messageLive) w in
      (Some o, w)
  end.

(** ** The drop message (lines 201-223) *)

Record Embed := mkEmbed {
  embedTitle : string;
  embedDescription : string;
  embedColor : Z;
  embedFooter : string
}.

Record Button := mkButton {
  buttonCustomId : string;
  buttonLabel : string
}.

Definition buildEmbed (dropId : string) (validBoxes : list string) (i : Z) : Embed :=
  let isReal := bool_decide (boxName i ∈ validBoxes) in
  mkEmbed ("Gift " +:+ pretty (i + 1))
          (if isReal then "A sparkling gift box! Click Collect."
           else "A mysterious box... click at your own risk.")
          (if isReal then 0x58D68D else 0xF1948A)
          ("Drop " +:+ dropId +:+ " • Box " +:+ pretty (i + 1)).

(** The loop [for (let i = 0; i < 4; i++)] that fills [embeds]. *)
Definition buildEmbeds (dropId : string) (validBoxes : list string) : list Embed :=
  buildEmbed dropId validBoxes <$> [0; 1; 2; 3].

(** The loop that fills [buttons]. *)
Definition buildButtons (dropId : string) : list Button :=
  (λ i, mkButton (buttonIdFor dropId i) ("Collect " +:+ pretty (i + 1))) <$> [0; 1; 2; 3].

(** ** Who may do what (lines 92-127) *)

Record Config := mkConfig {
  OWNER_ID : string;
  MOD_ROLE_ID : option string
}.

Inductive Permission :=
  | ManageGuild | ManageChannels | ManageMessages | KickMembers | BanMembers
  | ModerateMembers.

(** [interaction.member] as the platform hands it over: membership of a role
    ([member.roles.cache.has]) and [member.permissions.has]. *)
Record Member := mkMember {
  inRole : string → bool;
  hasPermission : Permission → bool
}.

Definition isOwnerId (cfg : Config) (id : string) : bool :=
  bool_decide (id = OWNER_ID cfg).

Definition isModeratorByRole (cfg : Config) (m : Member) : bool :=
  match MOD_ROLE_ID cfg with
  | None => false
  | Some role => inRole m role
  end.

Definition isModeratorByPerms (m : Member) : bool :=
  hasPermission m ManageGuild || hasPermission m ManageChannels
  || hasPermission m ManageMessages || hasPermission m KickMembers
  || hasPermission m BanMembers.

(** [isModerator]: a missing member makes [isModeratorByPerms] throw inside
    its [try], which answers [false]. *)
Definition isModerator (cfg : Config) (user : string) (member : option Member) : bool :=
  if isOwnerId cfg user then true
  else if match MOD_ROLE_ID cfg, member with
          | Some _, Some m => isModeratorByRole cfg m
          | _, _ => false
          end then true
  else match member with
       | Some m => isModeratorByPerms m
       | None => false
       end.

(** ** Slash commands (lines 364-450) *)

(** [entries.sort((a, b) => b[1] - a[1])]: the sort is stable, entries with
    equal counts keep their order. *)
Fixpoint insertDesc (e : string * Z) (sorted : list (string * Z)) : list (string * Z) :=
  match sorted with
  | [] => [e]
  | x :: rest => if bool_decide (x.2 > e.2) then x :: insertDesc e rest else e :: x :: rest
  end.

Definition sortDesc (entries : list (string * Z)) : list (string * Z) :=
  foldr insertDesc [] entries.

(** Lines 373-383: [None] stands for the answer 'No collectors yet.';
    otherwise the lines of the board as rank, member and count. *)
Definition leaderboard (entries : list (string * Z)) : option (list (Z * string * Z)) :=
  if bool_decide (length entries = 0%nat) then None
  else
    let top := take 20 (sortDesc entries) in
    Some (imap (λ i e, (Z.of_nat i + 1, e.1, e.2)) top).

(** What [/snowball] meets on the platform. *)
Record SnowballEnv := mkSnowballEnv {
  snowGuild : bool;
  snowBotCanModerate : bool;
  snowTargetFound : bool;
  snowBotOutranksTarget : bool;
  snowTimeoutSucceeds : bool
}.

Inductive SnowballOutcome :=
  | SnowNoGuild | SnowDenied | SnowBotLacksPermission | SnowTargetMissing
  | SnowHierarchy | SnowTimedOut (seconds : Z) | SnowFailed | SnowInternalError.

Definition TIMEOUT_DURATION_SECONDS : Z := 60.

(** Lines 386-409.  A caller without member data makes the permission test
    throw; the handler's outer [catch] then answers with an internal error. *)
Definition snowball (cfg : Config) (user : string) (member : option Member)
    (env : SnowballEnv) : SnowballOutcome :=
  if negb (snowGuild env) then SnowNoGuild
  else match member with
  | None => SnowInternalError
  | Some m =>
      if negb (hasPermission m ModerateMembers) && negb (isOwnerId cfg user)
      then SnowDenied
      else if negb (snowBotCanModerate env) then SnowBotLacksPermission
      else if negb (snowTargetFound env) then SnowTargetMissing
      else if negb (snowBotOutranksTarget env) then SnowHierarchy
      else if snowTimeoutSucceeds env then SnowTimedOut TIMEOUT_DURATION_SECONDS
      else SnowFailed
  end.

Inductive Command :=
  | CmdGiftbox
  | CmdLeaderboard (entries : list (string * Z))
  | CmdSnowball (env : SnowballEnv)
  | CmdDrop (env : DropEnv) (channel : string) (sent : option string)
  | CmdForceDrop (env : DropEnv) (channel : string) (sent : option string)
  | CmdSetDropChannel (channel : option string)
  | CmdResetCounts
  | CmdToggleAuto
  | CmdOther.

Inductive CommandReply :=
  | ReplyCount (count : Z)
  | ReplyBoard (board : option (list (Z * string * Z)))
  | ReplySnowball (o : SnowballOutcome)
  | ReplyDenied
  | ReplyDropping
  | ReplyPickTextChannel
  | ReplyChannelSet (channel : string)
  | ReplyCountsReset
  | ReplyAuto (enabled : bool)
  | NoReply.

(** The chat-input branch of the [interactionCreate] handler.  For
    [/leaderboard] the command carries [Object.entries(storage.userCounts)],
    whose order is the order in which members first won. *)
Definition onCommand (cfg : Config) (user : string) (member : option Member)
    (cmd : Command) (w : World) : CommandReply * World :=
  match cmd with
  | CmdGiftbox => (ReplyCount (default 0 (userCounts (storage w) !! user)), w)
  | CmdLeaderboard entries => (ReplyBoard (leaderboard entries), w)
  | CmdSnowball env => (ReplySnowball (snowball cfg user member env), w)
  | CmdDrop env channel sent =>
      if negb (isModerator cfg user member) then (ReplyDenied, w)
      else (ReplyDropping, sendGiftDrop env channel sent w)
  | CmdForceDrop env channel sent =>
      if negb (isOwnerId cfg user) then (ReplyDenied, w)
      else (ReplyDropping, sendGiftDrop env channel sent w)
  | CmdSetDropChannel channel =>
      if negb (isOwnerId cfg user) then (ReplyDenied, w)
      else match channel with
           | None => (ReplyPickTextChannel, w)
           | Some c => (ReplyChannelSet c, set_drop_channel true channel w)
           end
  | CmdResetCounts =>
      if negb (isOwnerId cfg user) then (ReplyDenied, w)
      else (ReplyCountsReset, reset_counts true w)
  | CmdToggleAuto =>
      if negb (isOwnerId cfg user) then (ReplyDenied, w)
      else
        let w := toggle_auto true w in
        (ReplyAuto (autoDropEnabled (botSettings (storage w))), w)
  | CmdOther => (NoReply, w)
  end.

(** ** Answering mentions (messageCreate, lines 504-521) *)

Definition mentionResponses (username : string) : list string :=
  [ "🎅 Ho ho ho, " +:+ username +:+ "! Did someone call for a gift?";
    "🎁 You pinged me, " +:+ username +:+ "? I’ve got something magical in my sleigh.";
    "✨ Santa’s here! What can I do for you, " +:+ username +:+ "?";
    "❄️ Feeling festive, " +:+ username +:+ "? Let’s drop some joy!";
    "🎄 You rang? Santa’s always listening... and ready to deliver!" ].

(** The reply sent, if any; [r] is the draw that picks the response. *)
Definition onMessage (authorIsBot mentioned : bool) (username : string) (r : Q)
    : option string :=
  if authorIsBot then None
  else if mentioned then
    let responses := mentionResponses username in
    Some (spliced (responses !! Z.to_nat (floor_scaled r (Z.of_nat (length responses)))))
  else None.

(** ** Vocabulary of the further properties *)

(** No member is recorded under two boxes of the drop. *)
Definition oneBoxPerMember (d : Drop) : Prop :=
  ∀ box1 box2 member,
    collectedBy d !! box1 = Some member →
    collectedBy d !! box2 = Some member →
    box1 = box2.

Definition dropsOneBoxPerMember (w : World) : Prop :=
  map_Forall (λ _ d, oneBoxPerMember d) (activeDrops (storage w)).

(** [d'] is [d] some presses later: same times, same real boxes, and every
    box collected by a named member still collected by that member. *)
Definition laterDrop (d d' : Drop) : Prop :=
  createdAt d' = createdAt d
  ∧ expiresAt d' = expiresAt d
  ∧ validBoxes d' = validBoxes d
  ∧ ∀ box member,
      collectedBy d !! box = Some member → member ≠ "" →
      collectedBy d' !! box = Some member.

(** The entry under [id] after a unit of work: gone, or a later state of
    what it was. *)
Definition keptOrGone (id : string) (d : Drop) (w' : World) : Prop :=
  activeDrops (storage w') !! id = None
  ∨ ∃ d', activeDrops (storage w') !! id = Some d' ∧ laterDrop d d'.

(** Units of work that are neither a timer of the drop [id], nor a press
    after [deadline], nor the registration of a new drop under [id]. *)
Definition leavesAlone (id : string) (deadline : Z) (e : Event) : Prop :=
  match e with
  | Press i => btnNow i ≤ deadline
  | CleanupFires id' _ _ _ => id' ≠ id
  | SafetyFires id' => id' ≠ id
  | _ => id ∉ createdBy e
  end.

(** The value the last assignment to [key] among [props] gives it, if any. *)
Fixpoint lastProp (key : string) (props : Js.Object) : option Js.Value :=
  match props with
  | [] => None
  | (k, v) :: rest =>
      match lastProp key rest with
      | Some later => Some later
      | None => if String.eqb k key then Some v else None
      end
  end.

(** The two fields [loadStorage] defaults to an empty object. *)
Definition defaulted (key : string) : bool :=
  bool_decide (key = "userCounts" ∨ key = "activeDrops").

(** ** The scheduler callback and what runs during its awaits

    The callback armed by [scheduleNextDrop] starts when its timer fires,
    awaits inside its loop, and ends with its [finally] block.  Between
    start and end any other unit of work may run, the two halves of the
    [sendGiftDrop] calls of the loop among them. *)
Inductive SchedEvent :=
  | Unit (e : Event)
  | CallbackStarts
  | CallbackEnds (r : Q).

(** One step on a world and the number of callbacks that have started and
    not yet ended; [None] when the step cannot happen: a timer that is not
    armed does not fire, and only a callback that has started ends. *)
Definition schedStep (e : SchedEvent) (s : World * nat) : option (World * nat) :=
  let '(w, running) := s in
  match e with
  | Unit (AutoDropFires steps r) =>
      match schedulerTimers w with
      | [] => None
      | _ :: _ => Some (step (AutoDropFires steps r) w, running)
      end
  | Unit e => Some (step e w, running)
  | CallbackStarts =>
      match schedulerTimers w with
      | [] => None
      | _ :: _ => Some (disarm AutoDrop w, S running)
      end
  | CallbackEnds r =>
      match running with
      | O => None
      | S rest => Some (scheduleNextDrop r w, rest)
      end
  end.

Fixpoint schedRun (es : list SchedEvent) (s : World * nat) : option (World * nat) :=
  match es with
  | [] => Some s
  | e :: rest =>
      match schedStep e s with
      | Some s' => schedRun rest s'
      | None => None
      end
  end.

(** Two worlds that agree on everything the scheduler callback reads or
    changes in memory: tallies, drops, the configured channel, the timers. *)
Definition sameButFlag (w1 w2 : World) : Prop :=
  userCounts (storage w1) = userCounts (storage w2)
  ∧ activeDrops (storage w1) = activeDrops (storage w2)
  ∧ dropChannelId (botSettings (storage w1)) = dropChannelId (botSettings (storage w2))
  ∧ writable w1 = writable w2
  ∧ timers w1 = timers w2.

(** A process with automatic drops enabled for channel c1. *)
Definition worldAuto : World := withSettings (mkSettings true (Some "c1")) worldIdle.

(** The fields [storage] owns from the start. *)
Definition storageField (key : string) : Prop :=
  key = "userCounts" ∨ key = "activeDrops" ∨ key = "botSettings".

(** The owner's [/reset_counts], the one unit of work that lowers a tally. *)
Definition isReset (e : Event) : Prop :=
  match e with
  | ResetCounts true => True
  | _ => False
  end.

(** Descending by count. *)
Definition countsDescend (l : list (string * Z)) : Prop :=
  StronglySorted (λ a b, b.2 ≤ a.2) l.

(** * Properties *)

(** ** The world through the basic operations *)

Section Projections.
Context (w : World).

Lemma saveStorage_storage : storage (saveStorage w) = storage w.
Proof. unfold saveStorage. by destruct (writable w). Qed.

Lemma saveStorage_timers : timers (saveStorage w) = timers w.
Proof. unfold saveStorage. by destruct (writable w). Qed.

Lemma saveStorage_writable : writable (saveStorage w) = writable w.
Proof. unfold saveStorage. by destruct (writable w) eqn:E. Qed.

Lemma saveStorage_disk : writable w = true → disk (saveStorage w) = Some (storage w).
Proof. unfold saveStorage. by intros ->. Qed.

Lemma saveStorage_trace :
  writable w = true → trace (saveStorage w) = trace w ++ [Saved (storage w)].
Proof. unfold saveStorage. by intros ->. Qed.

Lemma disableButton_storage i : storage (disableButton i w) = storage w.
Proof. unfold disableButton. by destruct (btnGuild i), (btnMessageLive i). Qed.

Lemma disableButton_disk i : disk (disableButton i w) = disk w.
Proof. unfold disableButton. by destruct (btnGuild i), (btnMessageLive i). Qed.

Lemma disableButton_timers i : timers (disableButton i w) = timers w.
Proof. unfold disableButton. by destruct (btnGuild i), (btnMessageLive i). Qed.
End Projections.

Lemma sameState_refl w : sameState w w.
Proof. by repeat split. Qed.

Lemma sameState_emit e w1 w2 : sameState w1 w2 → sameState (emit e w1) w2.
Proof. by intros (? & ? & ? & ?). Qed.

Lemma sameState_disableButton i w1 w2 :
  sameState w1 w2 → sameState (disableButton i w1) w2.
Proof.
  unfold disableButton.
  destruct (btnGuild i), (btnMessageLive i); auto using sameState_emit.
Qed.

Create HintDb world.
#[local] Hint Resolve sameState_refl sameState_emit sameState_disableButton : world.

(** The troll-box branch only talks to the platform. *)
Lemma trollBox_spec i member w :
  ∃ r w', trollBox i member w = (Trollbox r, w') ∧ sameState w' w.
Proof.
  unfold trollBox.
  destruct (btnGuild i) as [g|]; simpl; [|by eauto 6 with world].
  destruct (roleReady g); simpl; [|by eauto 6 with world].
  destruct (botOutranksRole g); simpl; [|by eauto 6 with world].
  destruct (roleAddSucceeds g); simpl; by eauto 8 with world.
Qed.

Lemma valuesInclude_spec (obj : gmap string string) x :
  valuesInclude obj x = true ↔ ∃ k, obj !! k = Some x.
Proof.
  unfold valuesInclude. rewrite bool_decide_eq_true, list_elem_of_fmap. split.
  - intros [[k v] [-> Hin]]. exists k. by apply elem_of_map_to_list.
  - intros [k Hk]. exists (k, x). split; [done|]. by apply elem_of_map_to_list.
Qed.

Lemma truthy_spec (obj : gmap string string) k :
  (∀ v, obj !! k = Some v → v ≠ "") →
  truthy (obj !! k) = true ↔ is_Some (obj !! k).
Proof.
  intros Hne. unfold truthy. destruct (obj !! k) as [v|] eqn:E.
  - rewrite bool_decide_eq_true. split; [by eauto|]. intros _. by apply Hne.
  - split; [done|]. by intros [? ?].
Qed.

Lemma collect_cases i w : CollectCase i w (collect i w).
Proof.
  unfold collect.
  destruct (activeDrops (storage w) !! btnDropId i) as [d|] eqn:Hd; simpl;
    [|by apply case_not_found; auto with world].
  case_bool_decide as Hexp; simpl; [by eapply case_expired; eauto with world|].
  assert (btnNow i ≤ expiresAt d) by lia.
  destruct (truthy _) eqn:Hslot; simpl; [by eapply case_slot; eauto with world|].
  destruct (btnMember i) as [member|] eqn:Hm; simpl;
    [|by eapply case_no_member; eauto with world].
  destruct (valuesInclude _ _) eqn:Hv; simpl;
    [by eapply case_member; eauto with world|].
  case_bool_decide as Hreal; simpl.
  - rewrite saveStorage_storage. simpl. eapply case_prize; eauto.
    apply sameState_disableButton, sameState_emit, sameState_refl.
  - destruct (trollBox_spec i member
      (saveStorage (withDrops
         (<[btnDropId i := setCollected ("box_" +:+ btnBoxIndex i) member d]>) w)))
      as (r & w' & -> & Hw').
    by eapply case_troll.
Qed.

Ltac world_simpl :=
  repeat first
    [ rewrite saveStorage_storage | rewrite saveStorage_timers
    | rewrite saveStorage_writable | rewrite disableButton_storage
    | rewrite disableButton_disk | rewrite disableButton_timers
    | progress simpl ].

(** Inspect the branch [collect i w] took, naming the result [o] and [w']. *)
Ltac collect_inv i w o w' :=
  let H := fresh "Hcase" in
  pose proof (collect_cases i w) as H;
  destruct (collect i w) as [o w'];
  inversion H; clear H; subst;
  repeat match goal with x := _ |- _ => subst x end; simpl in *.

(** ** Claim arbitration *)



(** C10.  A press answered with DropNotFound, SlotAlreadyClaimed or
    MemberAlreadyClaimed leaves the stored state as it was: the in-memory
    storage (claims of every drop, tallies, active drops, settings), the
    storage file and the armed timers are all unchanged. *)
Theorem rejected_claim_keeps_state i w :
  (collect i w).1 = DropNotFound
  ∨ (collect i w).1 = SlotAlreadyClaimed
  ∨ (collect i w).1 = MemberAlreadyClaimed →
  storage (collect i w).2 = storage w
  ∧ disk (collect i w).2 = disk w
  ∧ timers (collect i w).2 = timers w.
Proof.
  collect_inv i w o w'; intros [?|[?|?]]; try discriminate;
    match goal with H : sameState _ _ |- _ => destruct H as (? & ? & ? & ?) end;
    done.
Qed.

Lemma rejected_claim_keeps_state_witness :
  (collect (press "0" "B" 3000) (collect (press "0" "A" 2000) world0).2).1
    = SlotAlreadyClaimed
  ∧ storage (collect (press "0" "B" 3000) (collect (press "0" "A" 2000) world0).2).2
    = storage (collect (press "0" "A" 2000) world0).2.
Proof.
  split; [vm_compute; reflexivity|].
  apply (rejected_claim_keeps_state (press "0" "B" 3000)
           (collect (press "0" "A" 2000) world0).2).
  right; left. vm_compute. reflexivity.
Defined.

(** C1.  The checks of a press by a member are made in a fixed order and the
    first that applies decides the answer: unknown drop, then drop past its
    expiry time, then box already collected, then member already among the
    collectors of any box of the drop; only when none applies is the member
    recorded as the collector of the box. *)
Theorem collect_check_order i w claimant :
  btnMember i = Some claimant →
  (∀ d, activeDrops (storage w) !! btnDropId i = Some d → claimantsNonEmpty d) →
  let boxId := "box_" +:+ btnBoxIndex i in
  let o := (collect i w).1 in
  let w' := (collect i w).2 in
  (activeDrops (storage w) !! btnDropId i = None → o = DropNotFound)
  ∧ ∀ d, activeDrops (storage w) !! btnDropId i = Some d →
      (btnNow i > expiresAt d → o = DropExpired)
      ∧ (btnNow i ≤ expiresAt d →
         is_Some (collectedBy d !! boxId) → o = SlotAlreadyClaimed)
      ∧ (btnNow i ≤ expiresAt d →
         collectedBy d !! boxId = None →
         (∃ k, collectedBy d !! k = Some claimant) → o = MemberAlreadyClaimed)
      ∧ (btnNow i ≤ expiresAt d →
         collectedBy d !! boxId = None →
         (¬ ∃ k, collectedBy d !! k = Some claimant) →
         ((∃ n, o = Prize n) ∨ (∃ r, o = Trollbox r))
         ∧ ∃ d', activeDrops (storage w') !! btnDropId i = Some d'
                 ∧ collectedBy d' = <[boxId := claimant]> (collectedBy d)).
Proof.
  intros Hm Hwf boxId o w'. subst o w' boxId.
  assert (Hslot : ∀ d, activeDrops (storage w) !! btnDropId i = Some d →
            truthy (collectedBy d !! ("box_" +:+ btnBoxIndex i)) = true
            ↔ is_Some (collectedBy d !! ("box_" +:+ btnBoxIndex i))).
  { intros d Hd. apply truthy_spec. intros v. apply (Hwf d Hd). }
  collect_inv i w o w1; (split; [intros; simplify_eq; done|]);
    intros d0 Hd0; simplify_eq;
    repeat match goal with
    | Hd : activeDrops _ !! _ = Some ?d, H : truthy (collectedBy ?d !! _) = true |- _ =>
        apply (Hslot _ Hd) in H
    | Hd : activeDrops _ !! _ = Some ?d, H : truthy (collectedBy ?d !! _) = false |- _ =>
        apply not_true_iff_false in H; rewrite (Hslot _ Hd) in H
    | H : valuesInclude _ _ = true |- _ => apply valuesInclude_spec in H
    | H : valuesInclude _ _ = false |- _ =>
        apply not_true_iff_false in H; rewrite valuesInclude_spec in H
    end;
    repeat split; intros; try done; try lia;
    try match goal with
    | H : ¬ is_Some ?x, H' : is_Some ?x |- _ => destruct (H H')
    | H : is_Some ?x, H' : ?x = None |- _ => rewrite H' in H; by destruct H
    end;
    eauto;
    match goal with H : sameState _ _ |- _ => destruct H as (Hs & _) end;
    rewrite Hs; world_simpl; rewrite lookup_insert_eq; eauto.
Qed.

Lemma collect_check_order_witness :
  (collect (press "1" "A" 3000) (collect (press "0" "A" 2000) world0).2).1
  = MemberAlreadyClaimed.
Proof.
  pose (w := (collect (press "0" "A" 2000) world0).2).
  pose (d := setCollected "box_0" "A" drop0).
  assert (Hd : activeDrops (storage w) !! "drop_1000_7" = Some d)
    by (vm_compute; reflexivity).
  refine (proj1 (proj2 (proj2 (proj2
    (collect_check_order (press "1" "A" 3000) w "A" eq_refl _) d Hd))) _ _ _).
  - intros d' Hd' k v Hk. simpl in Hd'. rewrite Hd in Hd'. injection Hd' as <-.
    unfold d in Hk. simpl in Hk.
    apply lookup_insert_Some in Hk as [[_ <-]|[_ Hk]]; [done|].
    by rewrite lookup_empty in Hk.
  - vm_compute. discriminate.
  - vm_compute. reflexivity.
  - exists "box_0". vm_compute. reflexivity.
Defined.

(** The hypothesis of [collect_check_order] on recorded ids is an invariant
    of the process: it holds of fresh drops and is kept by every unit of
    work as long as the members who press buttons have non-empty ids. *)
Lemma step_named e w : dropsNamed w → pressNamed e → dropsNamed (step e w).
Proof.
  intros Hw He.
  assert (∀ env channel sent w, dropsNamed w →
            dropsNamed (sendGiftDrop_resume env channel sent w)) as Hresume.
  { clear. intros env channel sent w Hw.
    unfold sendGiftDrop_resume. destruct sent as [message|]; [|done]. simpl.
    destruct (activeDrops (storage w) !! newDropId env) as [d|] eqn:E; [|done].
    unfold dropsNamed. world_simpl. apply map_Forall_insert_2; [|done].
    apply (Hw _ _ E). }
  assert (∀ env w, dropsNamed w → dropsNamed (sendGiftDrop_begin env w)) as Hbegin.
  { clear. intros env w Hw.
    unfold dropsNamed, sendGiftDrop_begin. simpl. apply map_Forall_insert_2; [|done].
    intros k v Hk. simpl in Hk. by rewrite lookup_empty in Hk. }
  destruct e as [i|env|env c s|d' c m del|d'|steps r|o c|o|o]; simpl in *.
  - unfold dropsNamed in *.
    collect_inv i w o w';
      match goal with H : sameState _ _ |- _ => destruct H as (Hs & _) end;
      rewrite Hs; world_simpl; try done.
    + by apply map_Forall_delete.
    + apply map_Forall_insert_2; [|done]. intros k v Hk. simpl in Hk.
      apply lookup_insert_Some in Hk as [[_ <-]|[_ Hk]]; [congruence|].
      eapply Hw; eauto.
    + apply map_Forall_insert_2; [|done]. intros k v Hk. simpl in Hk.
      apply lookup_insert_Some in Hk as [[_ <-]|[_ Hk]]; [congruence|].
      eapply Hw; eauto.
  - by apply Hbegin.
  - by apply Hresume.
  - unfold fireCleanup, dropsNamed in *. simpl.
    assert (map_Forall (λ _ d, claimantsNonEmpty d)
              (activeDrops (storage
                 match activeDrops (storage w) !! d' with
                 | Some _ => saveStorage (withDrops (delete d') (disarm (Cleanup d' c m) w))
                 | None => disarm (Cleanup d' c m) w
                 end))) as Hgone.
    { destruct (activeDrops (storage w) !! d'); world_simpl; [|done].
      by apply map_Forall_delete. }
    by destruct del.
  - unfold fireSafetyExpiry, dropsNamed in *. simpl.
    destruct (activeDrops (storage w) !! d'); world_simpl; [|done].
    by apply map_Forall_delete.
  - unfold fireAutoDrop, scheduleNextDrop, dropsNamed. simpl.
    destruct (truthy _); [|done].
    change (dropsNamed (dropInGuilds steps (disarm AutoDrop w))).
    assert (dropsNamed (disarm AutoDrop w)) as Hd by done.
    revert Hd. generalize (disarm AutoDrop w). clear -Hresume Hbegin.
    induction steps as [|[|env channel sent|] steps IH]; intros w Hw; simpl; auto.
    apply IH. unfold sendGiftDrop. auto.
  - unfold set_drop_channel. destruct o; [|done]. destruct c; [|done].
    unfold dropsNamed. by world_simpl.
  - unfold reset_counts. destruct o; [|done]. unfold dropsNamed. by world_simpl.
  - unfold toggle_auto. destruct o; [|done]. unfold dropsNamed. by world_simpl.
Qed.

(** X22.  No empty member id is ever recorded: if every live drop records
    only non-empty ids and the members who press buttons have non-empty ids,
    the same holds after any sequence of units of work. *)
Lemma run_named es w :
  dropsNamed w → Forall pressNamed es → dropsNamed (run es w).
Proof.
  revert w. induction es as [|e es IH]; intros w Hw Hes; [done|].
  apply Forall_cons in Hes as [He Hes].
  change (run (e :: es) w) with (run es (step e w)).
  apply IH; [|done]. by apply step_named.
Qed.

(** ** Classification of a successful claim *)

(** A press that passes the four checks on a real box is answered with
    Prize, and the member's tally in memory grows by one. *)
Lemma collect_prize_tally i w n :
  (collect i w).1 = Prize n →
  ∃ member,
    btnMember i = Some member
    ∧ n = default 0 (userCounts (storage w) !! member) + 1
    ∧ userCounts (storage (collect i w).2) = <[member := n]> (userCounts (storage w)).
Proof.
  collect_inv i w o w'; intros [= <-].
  match goal with H : sameState _ _ |- _ => destruct H as (Hs & _) end.
  eexists; split; [done|]. split; [done|]. rewrite Hs. by world_simpl.
Qed.

(** The file written during such a press still holds the tallies from before
    the press: the write happens before the tally is raised and no write
    follows within the handler. *)
Lemma collect_prize_file i w n :
  (collect i w).1 = Prize n →
  writable w = true →
  ∃ snapshot,
    disk (collect i w).2 = Some snapshot
    ∧ userCounts snapshot = userCounts (storage w).
Proof.
  collect_inv i w o w'; intros [= <-] Hw.
  match goal with H : sameState _ _ |- _ => destruct H as (_ & Hd & _) end.
  rewrite Hd. simpl. rewrite saveStorage_disk by done. by eexists.
Qed.

(** A troll box leaves every tally alone. *)
Lemma collect_troll_tally i w r :
  (collect i w).1 = Trollbox r →
  userCounts (storage (collect i w).2) = userCounts (storage w).
Proof.
  collect_inv i w o w'; intros [= <-].
  match goal with H : sameState _ _ |- _ => destruct H as (Hs & _) end.
  rewrite Hs. by world_simpl.
Qed.

(** C3.  Member A collects real box 0 of a fresh drop while the storage file
    is writable: the answer is Prize with tally 1 and the tally in memory is
    1, but the file, last written before the tally was raised, has no tally
    for A, and nothing is written after the tally changes. *)
Theorem prize_tally_not_persisted :
  let r := collect (press "0" "A" 2000) world0 in
  r.1 = Prize 1
  ∧ userCounts (storage r.2) !! "A" = Some 1
  ∧ (userCounts <$> disk r.2) = Some ∅
  ∧ ∃ snapshot,
      userCounts snapshot = ∅
      ∧ trace r.2 = [ Saved snapshot; Replied (Some "A") (Prize 1);
                      ButtonDisabled "drop_1000_7" "0" ].
Proof.
  repeat split; try (vm_compute; reflexivity).
  eexists. split; [|vm_compute; reflexivity]. reflexivity.
Qed.

(** ** Removal is final *)

Lemma sendGiftDrop_begin_absent env d w :
  activeDrops (storage w) !! d = None →
  newDropId env ≠ d →
  activeDrops (storage (sendGiftDrop_begin env w)) !! d = None.
Proof. intros Hd Hne. unfold sendGiftDrop_begin. simpl. by rewrite lookup_insert_ne. Qed.

Lemma sendGiftDrop_resume_absent env channel sent d w :
  activeDrops (storage w) !! d = None →
  activeDrops (storage (sendGiftDrop_resume env channel sent w)) !! d = None.
Proof.
  intros Hd. unfold sendGiftDrop_resume. destruct sent as [message|]; [|done].
  simpl. destruct (activeDrops (storage w) !! newDropId env) eqn:E; [|done].
  world_simpl. rewrite lookup_insert_ne; [done|]. intros <-. congruence.
Qed.

Lemma dropInGuilds_absent steps d w :
  activeDrops (storage w) !! d = None →
  d ∉ createdBySteps steps →
  activeDrops (storage (dropInGuilds steps w)) !! d = None.
Proof.
  revert w. induction steps as [|[|env channel sent|] steps IH]; intros w Hd Hfresh;
    simpl in *; auto.
  apply not_elem_of_cons in Hfresh as [Hne Hfresh].
  apply IH; [|done].
  by apply sendGiftDrop_resume_absent, sendGiftDrop_begin_absent.
Qed.

Lemma fireCleanup_absent d' message deleted d w :
  activeDrops (storage w) !! d = None ∨ d' = d →
  activeDrops (storage (fireCleanup d' message deleted w)) !! d = None.
Proof.
  intros Hd. unfold fireCleanup.
  assert (activeDrops (storage
            match activeDrops (storage w) !! d' with
            | Some _ => saveStorage (withDrops (delete d') w)
            | None => w
            end) !! d = None) as Hgone.
  { destruct (activeDrops (storage w) !! d') eqn:E; world_simpl.
    - destruct Hd as [Hd| ->]; [|by rewrite lookup_delete_eq].
      rewrite lookup_delete_None. by right.
    - destruct Hd as [Hd| <-]; done. }
  by destruct deleted.
Qed.

Lemma fireSafetyExpiry_absent d' d w :
  activeDrops (storage w) !! d = None ∨ d' = d →
  activeDrops (storage (fireSafetyExpiry d' w)) !! d = None.
Proof.
  intros Hd. unfold fireSafetyExpiry.
  destruct (activeDrops (storage w) !! d') eqn:E; world_simpl.
  - destruct Hd as [Hd| ->]; [|by rewrite lookup_delete_eq].
    rewrite lookup_delete_None. by right.
  - destruct Hd as [Hd| <-]; done.
Qed.

Lemma collect_absent i d w :
  activeDrops (storage w) !! d = None →
  activeDrops (storage (collect i w).2) !! d = None.
Proof.
  intros Hd. collect_inv i w o w';
    match goal with H : sameState _ _ |- _ => destruct H as (Hs & _) end;
    rewrite Hs; world_simpl; try done.
  - rewrite lookup_delete_None. by right.
  - rewrite lookup_insert_ne; [done|]. intros E. congruence.
  - rewrite lookup_insert_ne; [done|]. intros E. congruence.
Qed.

(** No unit of work brings back an id that is absent, short of registering a
    new drop under that very id. *)
Lemma step_absent e d w :
  activeDrops (storage w) !! d = None →
  d ∉ createdBy e →
  activeDrops (storage (step e w)) !! d = None.
Proof.
  intros Hd Hfresh. destruct e as [i|env|env c s|d' c m del|d'|steps r|o c|o|o]; simpl in *.
  - by apply collect_absent.
  - apply sendGiftDrop_begin_absent; [done|]. set_solver.
  - by apply sendGiftDrop_resume_absent.
  - apply fireCleanup_absent. by left.
  - apply fireSafetyExpiry_absent. by left.
  - unfold fireAutoDrop, scheduleNextDrop. simpl.
    destruct (truthy _); [|done]. by apply dropInGuilds_absent.
  - unfold set_drop_channel. destruct o; [|done]. destruct c; [|done]. by world_simpl.
  - unfold reset_counts. destruct o; [|done]. by world_simpl.
  - unfold toggle_auto. destruct o; [|done]. by world_simpl.
Qed.

Lemma run_absent es d w :
  activeDrops (storage w) !! d = None →
  (∀ e, e ∈ es → d ∉ createdBy e) →
  activeDrops (storage (run es w)) !! d = None.
Proof.
  revert w. induction es as [|e es IH]; intros w Hd Hfresh; [done|].
  change (run (e :: es) w) with (run es (step e w)).
  apply IH.
  - apply step_absent; [done|]. apply Hfresh. by left.
  - intros e' He'. apply Hfresh. by right.
Qed.





(** ** Winning slots *)

Lemma floor_scaled_div a b n : floor_scaled (a # b) n = (a * n) `div` Z.pos b.
Proof. unfold floor_scaled. simpl. by rewrite Pos.mul_1_r. Qed.

(** [Math.floor(Math.random() * n)] is one of [0 .. n-1]. *)
Lemma floor_scaled_range r n : unit_draw r → 0 < n → 0 ≤ floor_scaled r n < n.
Proof.
  destruct r as [a b]. intros [H0 H1] Hn. rewrite floor_scaled_div.
  unfold Qle, Qlt in *. simpl in *.
  split.
  - apply Z.div_pos; nia.
  - apply Z.div_lt_upper_bound; nia.
Qed.

Lemma pick_of_range rnd i : unit_draws rnd → (pick_of rnd i ≤ i)%nat.
Proof.
  intros Hr. unfold pick_of.
  pose proof (floor_scaled_range (rnd i) (Z.of_nat i + 1) (Hr i)). lia.
Qed.

Lemma drawsFor_unit t :
  (t.1.1 ≤ 3)%nat → (t.1.2 ≤ 2)%nat → (t.2 ≤ 1)%nat → unit_draws (drawsFor t).
Proof.
  intros H3 H2 H1 i. unfold unit_draw, drawsFor, Qle, Qlt. simpl.
  destruct i as [|[|[|[|i]]]]; simpl; try lia.
Qed.

(** What holds of the shuffle whatever in-range choices it makes. *)
Lemma fisher_yates_cases (P : list Z → Prop) pick :
  (pick 3 ≤ 3)%nat → (pick 2 ≤ 2)%nat → (pick 1 ≤ 1)%nat →
  (∀ t, t ∈ allPicks → P (fisher_yates (pickTriple t) 3 [0; 1; 2; 3])) →
  P (fisher_yates pick 3 [0; 1; 2; 3]).
Proof.
  intros H3 H2 H1 HP.
  assert (fisher_yates pick 3 [0; 1; 2; 3]
          = fisher_yates (pickTriple (pick 3, pick 2, pick 1)%nat) 3 [0; 1; 2; 3])
    as -> by reflexivity.
  apply HP. unfold allPicks.
  apply list_elem_of_bind. exists (pick 3%nat). split; [|apply elem_of_seq; lia].
  apply list_elem_of_bind. exists (pick 2%nat). split; [|apply elem_of_seq; lia].
  apply list_elem_of_bind. exists (pick 1%nat). split; [|apply elem_of_seq; lia].
  by apply list_elem_of_singleton.
Qed.

Lemma allPicks_wellShuffled :
  ∀ t, t ∈ allPicks → wellShuffled (fisher_yates (pickTriple t) 3 [0; 1; 2; 3]).
Proof.
  apply Forall_forall.
  apply (bool_decide_unpack (Forall _ allPicks)). vm_compute. exact I.
Qed.

(** X21.  The shuffle is unbiased over the six pairs: of its 24 equally
    likely runs, exactly four end with any given pair in front. *)
Lemma pairs_equally_likely a b :
  0 ≤ a < b → b < 4 → length (runsWinning a b) = 4%nat.
Proof.
  intros Ha Hb.
  assert (a = 0 ∨ a = 1 ∨ a = 2) as Hcase_a by lia.
  assert (b = 1 ∨ b = 2 ∨ b = 3) as Hcase_b by lia.
  destruct Hcase_a as [->|[->| ->]], Hcase_b as [->|[->| ->]];
    try lia; vm_compute; reflexivity.
Qed.

(** C2.  A drop is created with the first two entries of a Fisher-Yates
    shuffle of [0, 1, 2, 3] as its real boxes: whatever [Math.random()]
    returns, the shuffle yields a permutation of the four indices, the drop
    has exactly two distinct real boxes, both among the four boxes of the
    drop, and each of the six pairs of boxes is the outcome of some run. *)
Theorem winning_slots_two_of_four env :
  unit_draws (shuffleRand env) →
  shuffled (shuffleRand env) ≡ₚ [0; 1; 2; 3]
  ∧ validBoxes (newDrop env) = boxName <$> take 2 (shuffled (shuffleRand env))
  ∧ length (validBoxes (newDrop env)) = 2%nat
  ∧ NoDup (validBoxes (newDrop env))
  ∧ validBoxes (newDrop env) ⊆ ["box_0"; "box_1"; "box_2"; "box_3"]
  ∧ (∀ w, activeDrops (storage (sendGiftDrop_begin env w)) !! newDropId env
          = Some (newDrop env))
  ∧ ∀ a b, 0 ≤ a < b → b < 4 →
      ∃ rnd, unit_draws rnd ∧ realIndices rnd ≡ₚ [a; b].
Proof.
  intros Hr.
  assert (wellShuffled (shuffled (shuffleRand env))) as (Hperm & Hlen & Hnd & Hsub).
  { change (shuffled (shuffleRand env))
      with (fisher_yates (pick_of (shuffleRand env)) 3 [0; 1; 2; 3]).
    apply (fisher_yates_cases wellShuffled);
      auto using pick_of_range, allPicks_wellShuffled. }
  split; [done|]. split; [done|]. split; [done|]. split; [done|]. split; [done|].
  split; [intros w; simpl; apply lookup_insert_eq|].
  intros a b Ha Hb.
  assert (a = 0 ∨ a = 1 ∨ a = 2) as Hcase_a by lia.
  assert (b = 1 ∨ b = 2 ∨ b = 3) as Hcase_b by lia.
  destruct Hcase_a as [->|[->| ->]], Hcase_b as [->|[->| ->]]; try lia.
  - exists (drawsFor (2, 2, 1)%nat). split; [apply drawsFor_unit; simpl; lia|done].
  - exists (drawsFor (1, 1, 1)%nat). split; [apply drawsFor_unit; simpl; lia|done].
  - exists (drawsFor (1, 2, 1)%nat). split; [apply drawsFor_unit; simpl; lia|done].
  - exists (drawsFor (0, 0, 0)%nat). split; [apply drawsFor_unit; simpl; lia|done].
  - exists (drawsFor (0, 2, 0)%nat). split; [apply drawsFor_unit; simpl; lia|done].
  - exists (drawsFor (0, 1, 0)%nat). split; [apply drawsFor_unit; simpl; lia|done].
Qed.

Lemma winning_slots_two_of_four_witness :
  validBoxes (newDrop env0) = ["box_1"; "box_2"] ∧ NoDup (validBoxes (newDrop env0)).
Proof.
  split; [reflexivity|].
  refine (proj1 (proj2 (proj2 (proj2 (winning_slots_two_of_four env0 _))))).
  intros i. simpl. unfold unit_draw, Qle, Qlt. simpl. lia.
Defined.

(** ** Scheduler *)

Lemma schedulerTimers_sendGiftDrop env channel sent w :
  schedulerTimers (sendGiftDrop env channel sent w) = schedulerTimers w.
Proof.
  unfold sendGiftDrop, sendGiftDrop_resume, schedulerTimers.
  destruct sent as [message|]; [|done]. simpl.
  rewrite lookup_insert_eq. simpl. rewrite saveStorage_timers. simpl.
  rewrite <- app_assoc, filter_app. simpl.
  rewrite !filter_cons_False, filter_nil by done. by rewrite app_nil_r.
Qed.

Lemma schedulerTimers_dropInGuilds steps w :
  schedulerTimers (dropInGuilds steps w) = schedulerTimers w.
Proof.
  revert w. induction steps as [|[|env channel sent|] steps IH]; intros w; simpl; auto.
  by rewrite IH, schedulerTimers_sendGiftDrop.
Qed.

Lemma fireAutoDrop_schedulerTimers steps r w :
  schedulerTimers (fireAutoDrop steps r w)
  = schedulerTimers w ++ [mkTimer (randInt 5 10 r * 60 * 1000) AutoDrop].
Proof.
  unfold fireAutoDrop, scheduleNextDrop, schedulerTimers at 1. simpl.
  rewrite filter_app. simpl. rewrite filter_cons_True, filter_nil by done.
  f_equal. destruct (truthy _); [|done].
  apply schedulerTimers_dropInGuilds.
Qed.

Lemma scheduleNextDrop_schedulerTimers r w :
  schedulerTimers (scheduleNextDrop r w)
  = schedulerTimers w ++ [mkTimer (randInt 5 10 r * 60 * 1000) AutoDrop].
Proof.
  unfold scheduleNextDrop, schedulerTimers. simpl.
  rewrite filter_app. simpl. by rewrite filter_cons_True, filter_nil.
Qed.



(** ** Creating a drop: registration, rendering, persistence *)

(** C5 fails as stated: run from a process with no storage file, the drop
    message is sent while the file still does not exist; the first write
    comes after the rendering. *)
Lemma render_precedes_persist :
  disk (sendGiftDrop_begin env0 worldIdle) = None
  ∧ ¬ persistedBeforeRender (newDropId env0)
        (trace (sendGiftDrop env0 "c1" (Some "m1") worldIdle)).
Proof.
  split; [reflexivity|]. intros Hp.
  edestruct (Hp [] "m1") as (snapshot & Hin & _); [reflexivity|].
  by apply elem_of_nil in Hin.
Qed.

(** C5, amended.  [sendGiftDrop] puts the new drop into the in-memory active
    set before it asks for the rendering, and until the send has settled it
    writes nothing and arms no timer.  Once the message is sent it stores
    the message reference in the drop, then writes the whole storage to the
    file, and only then arms the two removal timers: on return the file
    holds the drop when the write succeeded, and is as it was, with the
    failure recorded, when it did not. *)
Theorem drop_persisted_after_render env channel message w :
  let d := newDropId env in
  let suspended := sendGiftDrop_begin env w in
  let referenced :=
    withDrops (<[d := setMessageRef message channel (newDrop env)]>)
              (emit (Rendered d message) suspended) in
  let w' := sendGiftDrop env channel (Some message) w in
  activeDrops (storage suspended) !! d = Some (newDrop env)
  ∧ disk suspended = disk w
  ∧ trace suspended = trace w
  ∧ timers suspended = timers w
  ∧ w' = setTimeout (SafetyExpiry d)
           (Z.max 0 (expiresAt (newDrop env) - armClock env))
           (setTimeout (Cleanup d channel message) DROP_MESSAGE_LIFETIME_MS
              (saveStorage referenced))
  ∧ timers w'
    = timers w ++ [ mkTimer DROP_MESSAGE_LIFETIME_MS (Cleanup d channel message);
                    mkTimer (Z.max 0 (expiresAt (newDrop env) - armClock env))
                            (SafetyExpiry d) ]
  ∧ activeDrops (storage w') !! d = Some (setMessageRef message channel (newDrop env))
  ∧ (writable w = true →
     trace w' = trace w ++ [Rendered d message; Saved (storage w')]
     ∧ disk w' = Some (storage w'))
  ∧ (writable w = false →
     trace w' = trace w ++ [Rendered d message; SaveFailed]
     ∧ disk w' = disk w).
Proof.
  intros d suspended referenced w'. subst d suspended referenced w'.
  unfold sendGiftDrop, sendGiftDrop_resume. simpl.
  rewrite !lookup_insert_eq. simpl.
  repeat split; try done.
  - rewrite saveStorage_timers. simpl. by rewrite <- app_assoc.
  - rewrite saveStorage_storage. simpl. by rewrite lookup_insert_eq.
  - unfold saveStorage. simpl. rewrite H. simpl.
    by rewrite insert_insert_eq, <- app_assoc.
  - unfold saveStorage. simpl. by rewrite H.
  - unfold saveStorage. simpl. rewrite H. simpl. by rewrite <- app_assoc.
  - unfold saveStorage. simpl. by rewrite H.
Qed.

Lemma drop_persisted_after_render_witness :
  disk (sendGiftDrop env0 "c1" (Some "m1") worldIdle)
  = Some (storage (sendGiftDrop env0 "c1" (Some "m1") worldIdle))
  ∧ callback <$> timers (sendGiftDrop env0 "c1" (Some "m1") worldIdle)
    = [Cleanup (newDropId env0) "c1" "m1"; SafetyExpiry (newDropId env0)].
Proof.
  destruct (drop_persisted_after_render env0 "c1" "m1" worldIdle)
    as (_ & _ & _ & _ & _ & Htimers & _ & Hsaved & _).
  split; [exact (proj2 (Hsaved eq_refl))|].
  rewrite Htimers. reflexivity.
Defined.

(** ** Enabling automatic drops *)

Lemma set_drop_channel_timers isOwner channel w :
  timers (set_drop_channel isOwner channel w) = timers w.
Proof.
  unfold set_drop_channel. destruct isOwner; [|done]. destruct channel; [|done].
  by world_simpl.
Qed.

Lemma toggle_auto_timers isOwner w : timers (toggle_auto isOwner w) = timers w.
Proof. unfold toggle_auto. destruct isOwner; [|done]. by world_simpl. Qed.

(** C7.  A process that started with automatic drops disabled has no
    scheduler timer.  When the owner then runs [/set_drop_channel], or runs
    [/toggle_auto] with a channel already configured, the settings are
    updated and written to the file, yet no timer is armed: the scheduler
    never starts. *)
Theorem enabling_auto_drop_arms_nothing :
  let started := ready (1 # 2) worldIdle in
  let viaChannel := set_drop_channel true (Some "c1") started in
  let configuredOff := withSettings (mkSettings false (Some "c1")) worldIdle in
  let viaToggle := toggle_auto true (ready (1 # 2) configuredOff) in
  timers started = []
  ∧ botSettings (storage viaChannel) = mkSettings true (Some "c1")
  ∧ disk viaChannel = Some (storage viaChannel)
  ∧ timers viaChannel = []
  ∧ botSettings (storage viaToggle) = mkSettings true (Some "c1")
  ∧ disk viaToggle = Some (storage viaToggle)
  ∧ timers viaToggle = [].
Proof. repeat split. Qed.

(** ** Drop ids *)

Lemma occurs_cons c c' s :
  occurs c (String c' s) = if Ascii.eqb c c' then true else occurs c s.
Proof. reflexivity. Qed.

Lemma pretty_N_char_digit x : Ascii.eqb "_"%char (pretty_N_char x) = false.
Proof. unfold pretty_N_char. by repeat case_match. Qed.

Lemma pretty_N_go_underscore x s :
  occurs "_"%char s = false → occurs "_"%char (pretty_N_go x s) = false.
Proof.
  revert s. induction (N.lt_wf_0 x) as [x _ IH]; intros s Hs.
  assert (x = 0 ∨ 0 < x)%N as [->|Hpos] by lia.
  - by rewrite pretty_N_go_0.
  - rewrite pretty_N_go_step by done. apply IH.
    + by apply N.div_lt.
    + by rewrite occurs_cons, pretty_N_char_digit.
Qed.

Lemma pretty_N_underscore (x : N) : occurs "_"%char (pretty x) = false.
Proof.
  unfold pretty, pretty_N. case_decide; [done|]. by apply pretty_N_go_underscore.
Qed.

(** The decimal rendering of an integer has no underscore. *)
Lemma pretty_Z_underscore (x : Z) : occurs "_"%char (pretty x) = false.
Proof.
  destruct x as [|p|p]; [done|apply (pretty_N_underscore (N.pos p))|].
  change (pretty (Z.neg p)) with (String "-" (pretty (N.pos p))).
  rewrite occurs_cons. apply pretty_N_underscore.
Qed.

Lemma append_nil s : "" +:+ s = s.
Proof. reflexivity. Qed.

Lemma append_cons c a s : String c a +:+ s = String c (a +:+ s).
Proof. reflexivity. Qed.

(** Two strings cut at their first underscore agree part by part. *)
Lemma underscore_split a a' b b' :
  occurs "_"%char a = false → occurs "_"%char a' = false →
  a +:+ String "_" b = a' +:+ String "_" b' → a = a' ∧ b = b'.
Proof.
  revert a'. induction a as [|c a IH]; intros [|c' a'] Ha Ha' Heq;
    rewrite ?append_nil, ?append_cons in Heq.
  - by injection Heq as ->.
  - injection Heq as <- _. by rewrite occurs_cons, Ascii.eqb_refl in Ha'.
  - injection Heq as -> _. by rewrite occurs_cons, Ascii.eqb_refl in Ha.
  - injection Heq as -> Heq. rewrite occurs_cons in Ha, Ha'.
    destruct (Ascii.eqb "_" c'); [done|].
    destruct (IH a' Ha Ha' Heq) as [-> ->]. done.
Qed.

Lemma makeDropId_eq_iff t1 r1 t2 r2 :
  makeDropId t1 r1 = makeDropId t2 r2
  ↔ t1 = t2 ∧ floor_scaled r1 10000 = floor_scaled r2 10000.
Proof.
  unfold makeDropId. split.
  - intros Heq. apply (inj (String.append "drop_")) in Heq.
    apply underscore_split in Heq as [Ht Hr]; auto using pretty_Z_underscore.
    split; by apply (inj pretty).
  - by intros [-> ->].
Qed.

(** C9 fails as stated: two calls of [makeDropId] in the same millisecond
    whose draws differ but fall in the same ten-thousandth of [0, 1) return
    the same id, and the second drop then replaces the first in the active
    set. *)
Lemma drop_ids_collide :
  let t := 1700000000000 in
  let r1 := 50001 # 100000 in
  let r2 := 50002 # 100000 in
  let env1 := mkDropEnv t r1 t (λ _, 0%Q) t in
  let env2 := mkDropEnv t r2 t (λ _, 1 # 2) t in
  unit_draw r1 ∧ unit_draw r2 ∧ ¬ (r1 == r2)%Q
  ∧ makeDropId t r1 = makeDropId t r2
  ∧ size (activeDrops (storage
            (sendGiftDrop_begin env2 (sendGiftDrop_begin env1 worldIdle)))) = 1%nat.
Proof.
  repeat split; try (vm_compute; congruence).
Qed.

(** C9, amended.  Two calls of [makeDropId] return different ids exactly
    when their clock readings differ or the integers
    [Math.floor(Math.random() * 10000)] they draw differ; in particular ids
    made in different milliseconds always differ. *)
Theorem drop_ids_differ_iff t1 r1 t2 r2 :
  makeDropId t1 r1 ≠ makeDropId t2 r2
  ↔ t1 ≠ t2 ∨ floor_scaled r1 10000 ≠ floor_scaled r2 10000.
Proof.
  rewrite makeDropId_eq_iff. split.
  - intros Hne. destruct (decide (t1 = t2)) as [->|]; [|by left].
    right. intros Heq. by apply Hne.
  - intros [Hne|Hne] [? ?]; by apply Hne.
Qed.

(** A drop registered at another millisecond than an earlier one does not
    take over its id. *)
Lemma newDropId_fresh env t r :
  idClock env ≠ t → makeDropId t r ∉ createdBy (DropBegin env).
Proof.
  intros Hne. simpl. apply not_elem_of_cons. split; [|apply not_elem_of_nil].
  unfold newDropId. intros Heq. symmetry in Heq.
  apply makeDropId_eq_iff in Heq as [? _]. done.
Qed.

(** ** Loading the snapshot *)

Lemma getProp_setProp_eq key v obj : Js.getProp key (Js.setProp key v obj) = v.
Proof.
  induction obj as [|[k v'] obj IH]; simpl.
  - by rewrite String.eqb_refl.
  - destruct (String.eqb k key) eqn:E; simpl; by rewrite E.
Qed.

Lemma getProp_setProp_ne key key' v obj :
  key ≠ key' → Js.getProp key (Js.setProp key' v obj) = Js.getProp key obj.
Proof.
  intros Hne. induction obj as [|[k v'] obj IH]; simpl.
  - destruct (String.eqb key' key) eqn:E; [|done].
    apply String.eqb_eq in E. congruence.
  - destruct (String.eqb k key') eqn:E; simpl; [|by rewrite IH].
    apply String.eqb_eq in E. subst k.
    destruct (String.eqb key' key) eqn:E'; [|done].
    apply String.eqb_eq in E'. congruence.
Qed.

Lemma orElse_truthy a b : Js.isTruthy b = true → Js.isTruthy (Js.orElse a b) = true.
Proof. intros Hb. unfold Js.orElse. by destruct (Js.isTruthy a) eqn:E. Qed.

(** [userCounts] and [activeDrops] are defaulted: whatever the file holds,
    they are truthy after [loadStorage] if they were before. *)
Lemma loadStorage_defaults_counts_and_drops file storage :
  Js.isTruthy (Js.getProp "userCounts" storage) = true →
  Js.isTruthy (Js.getProp "activeDrops" storage) = true →
  Js.isTruthy (Js.getProp "userCounts" (Js.loadStorage file storage).1) = true
  ∧ Js.isTruthy (Js.getProp "activeDrops" (Js.loadStorage file storage).1) = true.
Proof.
  intros Hc Hd.
  assert (∀ v, Js.isTruthy (Js.getProp "userCounts" (Js.applyParsed v storage)) = true
             ∧ Js.isTruthy (Js.getProp "activeDrops" (Js.applyParsed v storage)) = true)
    as Happly.
  { intros v. unfold Js.applyParsed. split.
    - rewrite !(getProp_setProp_ne "userCounts") by done.
      rewrite getProp_setProp_eq. by apply orElse_truthy.
    - rewrite (getProp_setProp_ne "activeDrops" "botSettings") by done.
      rewrite getProp_setProp_eq. by apply orElse_truthy. }
  destruct file; simpl; auto.
Qed.

(** [botSettings] is not: line 68 assigns the field to itself, so after a
    parsed document the field is whatever [Object.assign] left there. *)
Lemma loadStorage_botSettings v storage :
  Js.getProp "botSettings" (Js.loadStorage (Js.Parsed v) storage).1
  = Js.getProp "botSettings" (Js.assign storage v).
Proof.
  simpl. unfold Js.applyParsed. rewrite getProp_setProp_eq.
  rewrite !(getProp_setProp_ne "botSettings") by done.
  unfold Js.orElse. by destruct (Js.isTruthy _).
Qed.

(** C8.  Loading a file whose document is [{"botSettings": null}] into the
    initial storage leaves [storage.botSettings] null, not defaulted, while
    the two other fields are objects; the read of
    [storage.botSettings.autoDropEnabled] in the [ready] handler then
    throws. *)
Theorem loadStorage_null_botSettings :
  let document := Js.Obj [("botSettings", Js.Null)] in
  let loaded := (Js.loadStorage (Js.Parsed document) (Js.initialStorage None)).1 in
  Js.getProp "userCounts" loaded = Js.Obj []
  ∧ Js.getProp "activeDrops" loaded = Js.Obj []
  ∧ Js.getProp "botSettings" loaded = Js.Null
  ∧ Js.readAutoDropEnabled loaded = None.
Proof. repeat split. Qed.

(** * Further properties *)

(** ** Button ids lead back to their drop *)

Lemma occurs_app c a b : occurs c (a +:+ b) = occurs c a || occurs c b.
Proof.
  induction a as [|c' a IH]; [done|].
  rewrite append_cons, !occurs_cons, IH. by destruct (Ascii.eqb c c').
Qed.

Lemma pretty_N_go_avoids c x s :
  (∀ y, Ascii.eqb c (pretty_N_char y) = false) →
  occurs c s = false → occurs c (pretty_N_go x s) = false.
Proof.
  intros Hc. revert s. induction (N.lt_wf_0 x) as [x _ IH]; intros s Hs.
  assert (x = 0 ∨ 0 < x)%N as [->|Hpos] by lia.
  - by rewrite pretty_N_go_0.
  - rewrite pretty_N_go_step by done. apply IH.
    + by apply N.div_lt.
    + by rewrite occurs_cons, Hc.
Qed.

(** The decimal rendering of an integer has no colon. *)
Lemma pretty_Z_colon (x : Z) : occurs ":" (pretty x) = false.
Proof.
  assert (∀ y, Ascii.eqb ":" (pretty_N_char y) = false) as Hc.
  { intros y. unfold pretty_N_char. by repeat case_match. }
  assert (∀ n : N, occurs ":" (pretty n) = false) as HN.
  { intros n. unfold pretty, pretty_N. case_decide; [done|].
    by apply pretty_N_go_avoids. }
  destruct x as [|p|p]; [done|apply (HN (N.pos p))|].
  change (pretty (Z.neg p)) with (String "-" (pretty (N.pos p))).
  rewrite occurs_cons. apply HN.
Qed.

Lemma makeDropId_colon t r : occurs ":" (makeDropId t r) = false.
Proof.
  unfold makeDropId. rewrite !occurs_app, !pretty_Z_colon. reflexivity.
Qed.

Lemma splitColon_cons c rest :
  splitColon (String c rest)
  = if Ascii.eqb c ":" then "" :: splitColon rest
    else match splitColon rest with
         | [] => [String c ""]
         | part :: parts => String c part :: parts
         end.
Proof. reflexivity. Qed.

Lemma splitColon_plain a : occurs ":" a = false → splitColon a = [a].
Proof.
  induction a as [|c a IH]; [done|]. rewrite occurs_cons, splitColon_cons.
  rewrite (Ascii.eqb_sym c ":"). destruct (Ascii.eqb ":" c); [done|].
  intros Ha. by rewrite IH.
Qed.

Lemma splitColon_cut a rest :
  occurs ":" a = false →
  splitColon (a +:+ String ":" rest) = a :: splitColon rest.
Proof.
  induction a as [|c a IH].
  - intros _. by rewrite append_nil, splitColon_cons.
  - rewrite occurs_cons, append_cons, splitColon_cons.
    rewrite (Ascii.eqb_sym c ":"). destruct (Ascii.eqb ":" c); [done|].
    intros Ha. by rewrite IH.
Qed.

Lemma parseCustomId_buttonIdFor dropId i :
  occurs ":" dropId = false →
  parseCustomId (buttonIdFor dropId i) = Some (dropId, pretty i).
Proof.
  intros Hd. unfold parseCustomId, buttonIdFor.
  assert (String.prefix "collect:" ("collect:" +:+ dropId +:+ ":" +:+ pretty i) = true)
    as -> by (by destruct dropId).
  change ("collect:" +:+ dropId +:+ ":" +:+ pretty i)
    with ("collect" +:+ String ":" (dropId +:+ String ":" (pretty i))).
  rewrite splitColon_cut by done.
  rewrite splitColon_cut by done.
  rewrite splitColon_plain by apply pretty_Z_colon.
  reflexivity.
Qed.

(** X1.  The custom id of a button, split again by the handler, gives back
    the drop id and the box index it was built from, for every id
    [makeDropId] can return; so the four buttons of a drop message lead to
    boxes 0 to 3 of that drop, and ids that do not start with the collect
    prefix are not parsed at all. *)
Theorem button_id_round_trip t r :
  (∀ i, parseCustomId (buttonIdFor (makeDropId t r) i) = Some (makeDropId t r, pretty i))
  ∧ (parseCustomId ∘ buttonCustomId) <$> buildButtons (makeDropId t r)
    = [ Some (makeDropId t r, "0"); Some (makeDropId t r, "1");
        Some (makeDropId t r, "2"); Some (makeDropId t r, "3") ]
  ∧ ∀ custom w member now guild live,
      String.prefix "collect:" custom = false →
      onButton custom member now guild live w = (None, w).
Proof.
  split; [|split].
  - intros i. apply parseCustomId_buttonIdFor, makeDropId_colon.
  - unfold buildButtons. simpl.
    by rewrite !parseCustomId_buttonIdFor by apply makeDropId_colon.
  - intros custom w member now guild live Hp.
    unfold onButton, parseCustomId. by rewrite Hp.
Qed.

(** ** The first press on a new drop *)

Lemma boxName_elem i (l : list Z) : boxName i ∈ boxName <$> l ↔ i ∈ l.
Proof.
  rewrite list_elem_of_fmap. split; [|by eauto].
  intros (j & Heq & Hj). unfold boxName in Heq.
  apply (inj (String.append "box_")) in Heq.
  apply (inj pretty) in Heq. by subst.
Qed.

Lemma sendGiftDrop_sent env channel message w :
  activeDrops (storage (sendGiftDrop env channel (Some message) w)) !! newDropId env
  = Some (setMessageRef message channel (newDrop env))
  ∧ userCounts (storage (sendGiftDrop env channel (Some message) w))
    = userCounts (storage w).
Proof.
  unfold sendGiftDrop, sendGiftDrop_resume. simpl.
  rewrite !lookup_insert_eq. world_simpl. by rewrite lookup_insert_eq.
Qed.

(** X2.  The first press on button [i] of a drop that has just been sent, by
    any member and no later than the drop's expiry time, wins a prize
    exactly when [i] is one of the two indices the shuffle put in front,
    and is a troll box otherwise. *)
Theorem first_press_on_new_drop env channel message w i member now guild live :
  now ≤ createdClock env + 48 * 60 * 60 * 1000 →
  let w1 := sendGiftDrop env channel (Some message) w in
  let o := (onButton (buttonIdFor (newDropId env) i) (Some member) now guild live w1).1 in
  (i ∈ realIndices (shuffleRand env) →
   o = Some (Prize (default 0 (userCounts (storage w) !! member) + 1)))
  ∧ (i ∉ realIndices (shuffleRand env) → ∃ r, o = Some (Trollbox r)).
Proof.
  intros Hnow w1 o. subst o.
  unfold onButton.
  rewrite (parseCustomId_buttonIdFor (newDropId env) i) by apply makeDropId_colon.
  destruct (sendGiftDrop_sent env channel message w) as [Hd Hc]. fold w1 in Hd, Hc.
  clearbody w1.
  pose (p := mkPress (newDropId env) (pretty i) (Some member) now guild live).
  fold p. pose proof (collect_cases p w1) as Hcase.
  destruct (collect p w1) as [o w2]. simpl.
  assert (∀ d, activeDrops (storage w1) !! btnDropId p = Some d →
            d = setMessageRef message channel (newDrop env)) as Hsame.
  { intros d Hd'. simpl in Hd'. congruence. }
  inversion Hcase; subst;
    repeat match goal with x := _ |- _ => subst x end; simpl in *;
    try congruence;
    match goal with
    | H : activeDrops _ !! _ = Some ?d |- _ =>
        pose proof (Hsame _ H); subst d; simpl in *
    end;
    try (unfold DROP_EXPIRE_HOURS in *; lia);
    try (rewrite lookup_empty in *; simpl in *; discriminate);
    try match goal with
    | H : valuesInclude ∅ _ = true |- _ => by vm_compute in H
    end.
  - split; [intros _; by simplify_eq; rewrite Hc|].
    intros Hno. exfalso. apply Hno.
    match goal with H : _ ∈ validBoxesOf _ |- _ => by apply boxName_elem in H end.
  - split; [|by eauto].
    intros Hin. exfalso.
    match goal with H : _ ∉ validBoxesOf _ |- _ => apply H end.
    by apply boxName_elem.
Qed.

Lemma first_press_on_new_drop_witness :
  (onButton (buttonIdFor (newDropId env0) 1) (Some "A") 1700000000500 None true
            (sendGiftDrop env0 "c1" (Some "m1") worldIdle)).1
  = Some (Prize 1).
Proof.
  refine (proj1 (first_press_on_new_drop env0 "c1" "m1" worldIdle 1 "A"
                   1700000000500 None true _) _).
  - vm_compute. discriminate.
  - vm_compute. apply list_elem_of_In. simpl. auto.
Defined.

(** ** What the drop message shows *)

(** X3.  The message of a drop gives the real boxes away: the embed of box
    [i] has the sparkling description and the green colour exactly when [i]
    is one of the two winning indices, and for draws of [Math.random()]
    exactly two of the four embeds are green. *)
Theorem drop_message_marks_real_boxes env dropId :
  unit_draws (shuffleRand env) →
  let embeds := buildEmbeds dropId (validBoxes (newDrop env)) in
  length embeds = 4%nat
  ∧ length (filter (λ e, embedColor e = 0x58D68D) embeds) = 2%nat
  ∧ ∀ i e, 0 ≤ i < 4 → embeds !! Z.to_nat i = Some e →
      (i ∈ realIndices (shuffleRand env)
       → embedColor e = 0x58D68D
         ∧ embedDescription e = "A sparkling gift box! Click Collect.")
      ∧ (i ∉ realIndices (shuffleRand env)
         → embedColor e = 0xF1948A
           ∧ embedDescription e = "A mysterious box... click at your own risk.").
Proof.
  intros Hr embeds. subst embeds. split; [done|]. split.
  - change (validBoxes (newDrop env))
      with (boxName <$> take 2 (fisher_yates (pick_of (shuffleRand env)) 3 [0; 1; 2; 3])).
    apply (fisher_yates_cases
             (λ l, length (filter (λ e, embedColor e = 0x58D68D)
                             (buildEmbeds dropId (boxName <$> take 2 l))) = 2%nat));
      auto using pick_of_range.
    apply Forall_forall.
    apply (bool_decide_unpack (Forall _ allPicks)). vm_compute. exact I.
  - intros i e Hi He.
    assert (e = buildEmbed dropId (validBoxes (newDrop env)) i) as ->.
    { assert (i = 0 ∨ i = 1 ∨ i = 2 ∨ i = 3) as [->|[->|[->| ->]]] by lia;
        simpl in He; by injection He as <-. }
    unfold buildEmbed. simpl.
    split; intros Hin.
    + rewrite bool_decide_true; [done|]. by apply boxName_elem.
    + rewrite bool_decide_false; [done|]. intros Hb. by apply boxName_elem in Hb.
Qed.

Lemma drop_message_marks_real_boxes_witness :
  embedColor <$> buildEmbeds "d" (validBoxes (newDrop env0))
  = [0xF1948A; 0x58D68D; 0x58D68D; 0xF1948A]
  ∧ length (filter (λ e, embedColor e = 0x58D68D)
              (buildEmbeds "d" (validBoxes (newDrop env0)))) = 2%nat.
Proof.
  split; [reflexivity|].
  refine (proj1 (proj2 (drop_message_marks_real_boxes env0 "d" _))).
  intros i. simpl. unfold unit_draw, Qle, Qlt. simpl. lia.
Defined.

(** ** One box per member, one member per box *)

Lemma setCollected_oneBoxPerMember d box member :
  oneBoxPerMember d →
  valuesInclude (collectedBy d) member = false →
  oneBoxPerMember (setCollected box member d).
Proof.
  intros Hd Hno b1 b2 m H1 H2. simpl in *.
  apply not_true_iff_false in Hno. rewrite valuesInclude_spec in Hno.
  apply lookup_insert_Some in H1 as [[<- <-]|[Hne1 H1]];
    apply lookup_insert_Some in H2 as [[<- E2]|[Hne2 H2]]; try done.
  - destruct Hno. eauto.
  - subst m. destruct Hno. eauto.
  - by apply (Hd b1 b2 m).
Qed.

Lemma sendGiftDrop_begin_oneBox env w :
  dropsOneBoxPerMember w → dropsOneBoxPerMember (sendGiftDrop_begin env w).
Proof.
  intros Hw. unfold dropsOneBoxPerMember, sendGiftDrop_begin. simpl.
  apply map_Forall_insert_2; [|done].
  intros b1 b2 m H1. simpl in H1. by rewrite lookup_empty in H1.
Qed.

Lemma sendGiftDrop_resume_oneBox env channel sent w :
  dropsOneBoxPerMember w → dropsOneBoxPerMember (sendGiftDrop_resume env channel sent w).
Proof.
  intros Hw. unfold sendGiftDrop_resume. destruct sent as [message|]; [|done]. simpl.
  destruct (activeDrops (storage w) !! newDropId env) as [d|] eqn:E; [|done].
  unfold dropsOneBoxPerMember. world_simpl. apply map_Forall_insert_2; [|done].
  apply (Hw _ _ E).
Qed.

Lemma step_oneBox e w : dropsOneBoxPerMember w → dropsOneBoxPerMember (step e w).
Proof.
  intros Hw.
  destruct e as [i|env|env c s|d' c m del|d'|steps r|o c|o|o]; simpl in *.
  - unfold dropsOneBoxPerMember in *.
    collect_inv i w o w';
      match goal with H : sameState _ _ |- _ => destruct H as (Hs & _) end;
      rewrite Hs; world_simpl; try done.
    + by apply map_Forall_delete.
    + apply map_Forall_insert_2; [|done].
      apply setCollected_oneBoxPerMember; [|done]. eapply Hw; eauto.
    + apply map_Forall_insert_2; [|done].
      apply setCollected_oneBoxPerMember; [|done]. eapply Hw; eauto.
  - by apply sendGiftDrop_begin_oneBox.
  - by apply sendGiftDrop_resume_oneBox.
  - unfold fireCleanup, dropsOneBoxPerMember in *. simpl.
    assert (map_Forall (λ _ d, oneBoxPerMember d)
              (activeDrops (storage
                 match activeDrops (storage w) !! d' with
                 | Some _ => saveStorage (withDrops (delete d') (disarm (Cleanup d' c m) w))
                 | None => disarm (Cleanup d' c m) w
                 end))) as Hgone.
    { destruct (activeDrops (storage w) !! d'); world_simpl; [|done].
      by apply map_Forall_delete. }
    by destruct del.
  - unfold fireSafetyExpiry, dropsOneBoxPerMember in *. simpl.
    destruct (activeDrops (storage w) !! d'); world_simpl; [|done].
    by apply map_Forall_delete.
  - unfold fireAutoDrop, scheduleNextDrop, dropsOneBoxPerMember. simpl.
    destruct (truthy _); [|done].
    change (dropsOneBoxPerMember (dropInGuilds steps (disarm AutoDrop w))).
    assert (dropsOneBoxPerMember (disarm AutoDrop w)) as Hd by done.
    revert Hd. generalize (disarm AutoDrop w). clear.
    induction steps as [|[|env channel sent|] steps IH]; intros w Hw; simpl; auto.
    apply IH. unfold sendGiftDrop.
    by apply sendGiftDrop_resume_oneBox, sendGiftDrop_begin_oneBox.
  - unfold set_drop_channel. destruct o; [|done]. destruct c; [|done].
    unfold dropsOneBoxPerMember. by world_simpl.
  - unfold reset_counts. destruct o; [|done]. unfold dropsOneBoxPerMember. by world_simpl.
  - unfold toggle_auto. destruct o; [|done]. unfold dropsOneBoxPerMember. by world_simpl.
Qed.

(** X4.  Single claim per member per drop: if no live drop records a member
    under two boxes, the same holds after any sequence of presses, timer
    callbacks, drops, scheduler firings and owner commands; and no drop is
    ever registered with a box already collected. *)
Theorem one_box_per_member es w :
  dropsOneBoxPerMember w →
  dropsOneBoxPerMember (run es w)
  ∧ ∀ env, collectedBy (newDrop env) = ∅.
Proof.
  intros Hw. split; [|done].
  revert w Hw. induction es as [|e es IH]; intros w Hw; [done|].
  change (run (e :: es) w) with (run es (step e w)).
  by apply IH, step_oneBox.
Qed.

Lemma one_box_per_member_witness :
  dropsOneBoxPerMember
    (run [Press (press "0" "A" 2000); Press (press "1" "A" 2001);
          Press (press "1" "B" 2002)] world0).
Proof.
  refine (proj1 (one_box_per_member _ world0 _)).
  intros id d Hd b1 b2 m H1.
  change (({[ "drop_1000_7" := drop0 ]} : gmap string Drop) !! id = Some d) in Hd.
  apply lookup_singleton_Some in Hd as [_ <-]. simpl in H1.
  by rewrite lookup_empty in H1.
Defined.

(** ** A live drop only gains claims *)

Lemma laterDrop_refl d : laterDrop d d.
Proof. by repeat split. Qed.

Lemma laterDrop_trans d1 d2 d3 : laterDrop d1 d2 → laterDrop d2 d3 → laterDrop d1 d3.
Proof.
  intros (Hc1 & He1 & Hv1 & Hk1) (Hc2 & He2 & Hv2 & Hk2).
  repeat split; try congruence. intros box member Hb Hne. auto.
Qed.

Lemma laterDrop_setCollected d box member :
  truthy (collectedBy d !! box) = false → laterDrop d (setCollected box member d).
Proof.
  intros Hfree. repeat split. intros b m Hb Hne. simpl.
  destruct (decide (box = b)) as [->|Hdiff]; [|by rewrite lookup_insert_ne].
  rewrite Hb in Hfree. simpl in Hfree. by rewrite bool_decide_true in Hfree.
Qed.

Lemma sendGiftDrop_resume_kept env channel sent id d w :
  activeDrops (storage w) !! id = Some d →
  keptOrGone id d (sendGiftDrop_resume env channel sent w).
Proof.
  intros Hd. right. unfold sendGiftDrop_resume.
  destruct sent as [message|]; [|by eauto using laterDrop_refl]. simpl.
  destruct (activeDrops (storage w) !! newDropId env) as [d0|] eqn:E;
    [|by eauto using laterDrop_refl].
  world_simpl. destruct (decide (newDropId env = id)) as [Heq|Hne].
  - rewrite Heq in *. rewrite lookup_insert_eq. simplify_eq.
    eexists. split; [done|]. by repeat split.
  - rewrite lookup_insert_ne by done. eauto using laterDrop_refl.
Qed.

Lemma dropInGuilds_kept steps id d w :
  activeDrops (storage w) !! id = Some d →
  id ∉ createdBySteps steps →
  keptOrGone id d (dropInGuilds steps w).
Proof.
  revert d w. induction steps as [|[|env channel sent|] steps IH];
    intros d w Hd Hfresh; simpl in *;
    try (by right; eauto using laterDrop_refl); auto.
  apply not_elem_of_cons in Hfresh as [Hne Hfresh].
  assert (activeDrops (storage (sendGiftDrop_begin env w)) !! id = Some d) as Hb.
  { unfold sendGiftDrop_begin. simpl. by rewrite lookup_insert_ne. }
  destruct (sendGiftDrop_resume_kept env channel sent id d _ Hb) as [Hgone|(d' & Hd' & Hl)].
  - left. by apply dropInGuilds_absent.
  - destruct (IH d' _ Hd' Hfresh) as [?|(d'' & ? & ?)]; [by left|].
    right. eauto using laterDrop_trans.
Qed.

Lemma step_kept e id d w :
  activeDrops (storage w) !! id = Some d →
  id ∉ createdBy e →
  keptOrGone id d (step e w).
Proof.
  intros Hd Hfresh. unfold keptOrGone.
  destruct e as [i|env|env c s|d' c m del|d'|steps r|o c|o|o]; simpl in *.
  - collect_inv i w o w';
      match goal with H : sameState _ _ |- _ => destruct H as (Hs & _) end;
      rewrite Hs; world_simpl; try (by right; eauto using laterDrop_refl).
    + destruct (decide (btnDropId i = id)) as [<-|Hne];
        [left; by rewrite lookup_delete_eq|].
      right. rewrite lookup_delete_ne by done. eauto using laterDrop_refl.
    + right. destruct (decide (btnDropId i = id)) as [<-|Hne].
      * rewrite lookup_insert_eq. simplify_eq. eauto using laterDrop_setCollected.
      * rewrite lookup_insert_ne by done. eauto using laterDrop_refl.
    + right. destruct (decide (btnDropId i = id)) as [<-|Hne].
      * rewrite lookup_insert_eq. simplify_eq. eauto using laterDrop_setCollected.
      * rewrite lookup_insert_ne by done. eauto using laterDrop_refl.
  - right. rewrite lookup_insert_ne by set_solver. eauto using laterDrop_refl.
  - by apply sendGiftDrop_resume_kept.
  - assert (keptOrGone id d
              match activeDrops (storage w) !! d' with
              | Some _ => saveStorage (withDrops (delete d') (disarm (Cleanup d' c m) w))
              | None => disarm (Cleanup d' c m) w
              end) as Hk.
    { unfold keptOrGone.
      destruct (activeDrops (storage w) !! d'); world_simpl;
        [|by right; eauto using laterDrop_refl].
      destruct (decide (d' = id)) as [->|Hne]; [left; by rewrite lookup_delete_eq|].
      right. rewrite lookup_delete_ne by done. eauto using laterDrop_refl. }
    unfold fireCleanup. simpl. by destruct del.
  - unfold fireSafetyExpiry. simpl.
    destruct (activeDrops (storage w) !! d'); world_simpl;
      [|by right; eauto using laterDrop_refl].
    destruct (decide (d' = id)) as [->|Hne]; [left; by rewrite lookup_delete_eq|].
    right. rewrite lookup_delete_ne by done. eauto using laterDrop_refl.
  - unfold fireAutoDrop, scheduleNextDrop. simpl.
    destruct (truthy _); [|by right; eauto using laterDrop_refl].
    by apply (dropInGuilds_kept steps id d (disarm AutoDrop w)).
  - unfold set_drop_channel. destruct o; [|by right; eauto using laterDrop_refl].
    destruct c; world_simpl; right; eauto using laterDrop_refl.
  - unfold reset_counts. destruct o; world_simpl; right; eauto using laterDrop_refl.
  - unfold toggle_auto. destruct o; world_simpl; right; eauto using laterDrop_refl.
Qed.

(** X5.  As long as no new drop is registered under its id, a live drop is
    either removed or keeps its creation and expiry times and its real boxes
    and every box a (named) member has collected stays with that member:
    nothing ever re-assigns or frees a collected box or changes which boxes
    win. *)
Theorem live_drop_only_gains_claims es w id d :
  activeDrops (storage w) !! id = Some d →
  (∀ e, e ∈ es → id ∉ createdBy e) →
  activeDrops (storage (run es w)) !! id = None
  ∨ ∃ d', activeDrops (storage (run es w)) !! id = Some d' ∧ laterDrop d d'.
Proof.
  revert w d. induction es as [|e es IH]; intros w d Hd Hfresh.
  { right. eauto using laterDrop_refl. }
  change (run (e :: es) w) with (run es (step e w)).
  assert (id ∉ createdBy e) as He by (apply Hfresh; by left).
  assert (∀ e', e' ∈ es → id ∉ createdBy e') as Hes
    by (intros e' He'; apply Hfresh; by right).
  destruct (step_kept e id d w Hd He) as [Hgone|(d' & Hd' & Hl)].
  - left. by apply run_absent.
  - destruct (IH _ _ Hd' Hes) as [?|(d'' & ? & ?)]; [by left|].
    right. eauto using laterDrop_trans.
Qed.

Lemma run_cons e es w : run (e :: es) w = run es (step e w).
Proof. reflexivity. Qed.

Lemma live_drop_only_gains_claims_witness :
  ∃ d', activeDrops (storage
          (run [Press (press "0" "A" 2000); Press (press "0" "B" 2001);
                Press (press "2" "B" 2002)] world0)) !! "drop_1000_7" = Some d'
        ∧ collectedBy d' !! "box_0" = Some "A".
Proof.
  rewrite run_cons.
  destruct (live_drop_only_gains_claims
              [Press (press "0" "B" 2001); Press (press "2" "B" 2002)]
              (step (Press (press "0" "A" 2000)) world0)
              "drop_1000_7" (setCollected "box_0" "A" drop0))
    as [Hgone|(d' & Hd' & _ & _ & _ & Hk)].
  - vm_compute. reflexivity.
  - intros e He. repeat (apply elem_of_cons in He as [->|He]); simpl;
      try apply not_elem_of_nil. by apply elem_of_nil in He.
  - exfalso. vm_compute in Hgone. discriminate.
  - exists d'. split; [exact Hd'|]. apply Hk; [|discriminate].
    vm_compute. reflexivity.
Defined.

(** ** Tallies *)

Lemma sendGiftDrop_counts env channel sent w :
  userCounts (storage (sendGiftDrop env channel sent w)) = userCounts (storage w).
Proof.
  unfold sendGiftDrop, sendGiftDrop_resume. destruct sent as [message|]; [|done].
  simpl. rewrite lookup_insert_eq. by world_simpl.
Qed.

Lemma dropInGuilds_counts steps w :
  userCounts (storage (dropInGuilds steps w)) = userCounts (storage w).
Proof.
  revert w. induction steps as [|[|env channel sent|] steps IH]; intros w; simpl; auto.
  by rewrite IH, sendGiftDrop_counts.
Qed.

(** What a unit of work other than the owner's reset does to the tallies:
    nothing, or one more for one member. *)
Lemma step_counts e w :
  ¬ isReset e →
  userCounts (storage (step e w)) = userCounts (storage w)
  ∨ ∃ member,
      userCounts (storage (step e w))
      = <[member := default 0 (userCounts (storage w) !! member) + 1]>
          (userCounts (storage w)).
Proof.
  intros Hreset.
  destruct e as [i|env|env c s|d' c m del|d'|steps r|o c|o|o]; simpl in *.
  - collect_inv i w o w';
      match goal with H : sameState _ _ |- _ => destruct H as (Hs & _) end;
      rewrite Hs; world_simpl; eauto.
  - by left.
  - left. unfold sendGiftDrop_resume. destruct s; [|done]. simpl.
    destruct (activeDrops (storage w) !! newDropId env); by world_simpl.
  - left. unfold fireCleanup. simpl.
    destruct (activeDrops (storage w) !! d'), del; by world_simpl.
  - left. unfold fireSafetyExpiry. simpl.
    destruct (activeDrops (storage w) !! d'); by world_simpl.
  - left. unfold fireAutoDrop, scheduleNextDrop. simpl.
    destruct (truthy _); [|done]. by rewrite dropInGuilds_counts.
  - left. unfold set_drop_channel. destruct o; [|done]. destruct c; by world_simpl.
  - destruct o; [exfalso; by apply Hreset|]. by left.
  - left. unfold toggle_auto. destruct o; by world_simpl.
Qed.

(** X6.  Short of the owner's reset, no tally ever goes down: after any
    sequence of presses, timer callbacks, drops, scheduler firings and other
    commands every member has at least the count they had. *)
Theorem tallies_never_drop es w member :
  (∀ e, e ∈ es → ¬ isReset e) →
  default 0 (userCounts (storage w) !! member)
  ≤ default 0 (userCounts (storage (run es w)) !! member).
Proof.
  revert w. induction es as [|e es IH]; intros w Hes; [done|].
  change (run (e :: es) w) with (run es (step e w)).
  etrans; [|apply IH; intros e' He'; apply Hes; by right].
  destruct (step_counts e w) as [->|(m & ->)]; [apply Hes; by left|done|].
  destruct (decide (m = member)) as [->|Hne].
  - rewrite lookup_insert_eq. simpl. lia.
  - by rewrite lookup_insert_ne.
Qed.

Lemma tallies_never_drop_witness :
  1 ≤ default 0 (userCounts (storage
        (run [Press (press "1" "B" 2001); ToggleAuto true; SafetyFires "drop_1000_7"]
             (step (Press (press "0" "A" 2000)) world0))) !! "A").
Proof.
  refine (tallies_never_drop
            [Press (press "1" "B" 2001); ToggleAuto true; SafetyFires "drop_1000_7"]
            (step (Press (press "0" "A" 2000)) world0) "A" _).
  intros e He. repeat (apply elem_of_cons in He as [->|He]); simpl; auto.
  by apply elem_of_nil in He.
Defined.

(** X7.  A prize tally, which the press itself leaves out of the file,
    reaches the file when the first timer of the drop fires: the callback
    finds the drop still live, removes it and writes the whole storage. *)
Theorem prize_written_at_cleanup i w n message deleted :
  (collect i w).1 = Prize n →
  writable w = true →
  let w' := fireCleanup (btnDropId i) message deleted (collect i w).2 in
  ∃ member snapshot,
    btnMember i = Some member
    ∧ disk w' = Some snapshot
    ∧ userCounts snapshot !! member = Some n
    ∧ activeDrops snapshot !! btnDropId i = None.
Proof.
  collect_inv i w o w1; intros Hp; try discriminate Hp.
  injection Hp as <-. intros Hw.
  match goal with H : sameState _ _ |- _ => destruct H as (Hs & Hd & Hwr & _) end.
  eexists _, _. split; [done|].
  assert (activeDrops (storage w1) !! btnDropId i
          = Some (setCollected ("box_" +:+ btnBoxIndex i) member d)) as Hlive.
  { rewrite Hs. world_simpl. by rewrite lookup_insert_eq. }
  assert (writable w1 = true) as Hw1.
  { rewrite Hwr. by world_simpl. }
  unfold fireCleanup. rewrite Hlive.
  assert (disk (saveStorage (withDrops (delete (btnDropId i)) w1))
          = Some (storage (withDrops (delete (btnDropId i)) w1))) as Hdisk
    by (by apply saveStorage_disk).
  split; [by destruct deleted|]. simpl. rewrite Hs. world_simpl.
  split; [by rewrite lookup_insert_eq|by rewrite lookup_delete_eq].
Qed.

Lemma prize_written_at_cleanup_witness :
  (userCounts <$> disk (fireCleanup "drop_1000_7" "m1" true
                          (collect (press "0" "A" 2000) world0).2))
  = Some {[ "A" := 1 ]}.
Proof.
  destruct (prize_written_at_cleanup (press "0" "A" 2000) world0 1 "m1" true)
    as (member & snapshot & Hm & Hd & Hc & _).
  - vm_compute. reflexivity.
  - reflexivity.
  - vm_compute. reflexivity.
Defined.

(** ** The two removal timers *)

(** X8.  The two timers of a drop race safely: both remove the drop and
    leave the same storage and the same file, and whichever fires second
    (or fires for a drop already removed otherwise) changes neither storage
    nor file nor timers and writes nothing. *)
Theorem removal_timers_idempotent d message deleted w :
  let byCleanup := fireCleanup d message deleted w in
  let bySafety := fireSafetyExpiry d w in
  storage byCleanup = storage bySafety
  ∧ disk byCleanup = disk bySafety
  ∧ activeDrops (storage byCleanup) !! d = None
  ∧ fireSafetyExpiry d byCleanup = byCleanup
  ∧ fireSafetyExpiry d bySafety = bySafety
  ∧ sameState (fireCleanup d message deleted bySafety) bySafety
  ∧ sameState (fireCleanup d message deleted byCleanup) byCleanup.
Proof.
  intros byCleanup bySafety.
  assert (activeDrops (storage bySafety) !! d = None) as Hs
    by (apply fireSafetyExpiry_absent; by right).
  assert (activeDrops (storage byCleanup) !! d = None) as Hc
    by (apply fireCleanup_absent; by right).
  assert (∀ w0, activeDrops (storage w0) !! d = None →
            sameState (fireCleanup d message deleted w0) w0) as Hnoop.
  { intros w0 H0. unfold fireCleanup. rewrite H0.
    destruct deleted; auto with world. }
  split; [|split; [|split; [done|split; [|split; [|split]]]]]; auto.
  - subst byCleanup bySafety. unfold fireCleanup, fireSafetyExpiry.
    destruct (activeDrops (storage w) !! d), deleted; by world_simpl.
  - subst byCleanup bySafety. unfold fireCleanup, fireSafetyExpiry.
    destruct (activeDrops (storage w) !! d), deleted; simpl; try done;
      unfold saveStorage; simpl; by destruct (writable w).
  - unfold fireSafetyExpiry at 1. by rewrite Hc.
  - unfold fireSafetyExpiry at 1. by rewrite Hs.
Qed.

(** ** What removes a drop *)

Lemma sendGiftDrop_resume_live env channel sent id d w :
  activeDrops (storage w) !! id = Some d →
  ∃ d', activeDrops (storage (sendGiftDrop_resume env channel sent w)) !! id = Some d'
        ∧ laterDrop d d'.
Proof.
  intros Hd. unfold sendGiftDrop_resume.
  destruct sent as [message|]; [|by eauto using laterDrop_refl]. simpl.
  destruct (activeDrops (storage w) !! newDropId env) as [d0|] eqn:E;
    [|by eauto using laterDrop_refl].
  world_simpl. destruct (decide (newDropId env = id)) as [Heq|Hne].
  - rewrite Heq in *. rewrite lookup_insert_eq. simplify_eq.
    eexists. split; [done|]. by repeat split.
  - rewrite lookup_insert_ne by done. eauto using laterDrop_refl.
Qed.

Lemma dropInGuilds_live steps id d w :
  activeDrops (storage w) !! id = Some d →
  id ∉ createdBySteps steps →
  ∃ d', activeDrops (storage (dropInGuilds steps w)) !! id = Some d' ∧ laterDrop d d'.
Proof.
  revert d w. induction steps as [|[|env channel sent|] steps IH];
    intros d w Hd Hfresh; simpl in *; eauto using laterDrop_refl.
  apply not_elem_of_cons in Hfresh as [Hne Hfresh].
  assert (activeDrops (storage (sendGiftDrop_begin env w)) !! id = Some d) as Hb.
  { unfold sendGiftDrop_begin. simpl. by rewrite lookup_insert_ne. }
  destruct (sendGiftDrop_resume_live env channel sent id d _ Hb) as (d' & Hd' & Hl).
  destruct (IH d' _ Hd' Hfresh) as (d'' & ? & ?). eauto using laterDrop_trans.
Qed.

Lemma step_live e id d w :
  activeDrops (storage w) !! id = Some d →
  leavesAlone id (expiresAt d) e →
  ∃ d', activeDrops (storage (step e w)) !! id = Some d' ∧ laterDrop d d'.
Proof.
  intros Hd He.
  destruct e as [i|env|env c s|d' c m del|d'|steps r|o c|o|o]; simpl in *.
  - collect_inv i w o w';
      match goal with H : sameState _ _ |- _ => destruct H as (Hs & _) end;
      rewrite Hs; world_simpl; eauto using laterDrop_refl.
    + assert (btnDropId i ≠ id) as Hne by (intros <-; simplify_eq; lia).
      rewrite lookup_delete_ne by done. eauto using laterDrop_refl.
    + destruct (decide (btnDropId i = id)) as [<-|Hne].
      * rewrite lookup_insert_eq. simplify_eq. eauto using laterDrop_setCollected.
      * rewrite lookup_insert_ne by done. eauto using laterDrop_refl.
    + destruct (decide (btnDropId i = id)) as [<-|Hne].
      * rewrite lookup_insert_eq. simplify_eq. eauto using laterDrop_setCollected.
      * rewrite lookup_insert_ne by done. eauto using laterDrop_refl.
  - rewrite lookup_insert_ne by set_solver. eauto using laterDrop_refl.
  - by apply sendGiftDrop_resume_live.
  - exists d. split; [|apply laterDrop_refl]. unfold fireCleanup. simpl.
    destruct (activeDrops (storage w) !! d'), del; world_simpl;
      rewrite ?lookup_delete_ne by done; done.
  - exists d. split; [|apply laterDrop_refl]. unfold fireSafetyExpiry. simpl.
    destruct (activeDrops (storage w) !! d'); world_simpl;
      rewrite ?lookup_delete_ne by done; done.
  - unfold fireAutoDrop, scheduleNextDrop. simpl.
    destruct (truthy _); [|by eauto using laterDrop_refl].
    by apply (dropInGuilds_live steps id d (disarm AutoDrop w)).
  - unfold set_drop_channel. destruct o; [|by eauto using laterDrop_refl].
    destruct c; world_simpl; eauto using laterDrop_refl.
  - unfold reset_counts. destruct o; world_simpl; eauto using laterDrop_refl.
  - unfold toggle_auto. destruct o; world_simpl; eauto using laterDrop_refl.
Qed.

(** X9.  Only three things take a drop out of the active set: its two
    timers and a press made after its expiry time.  Through any sequence of
    other units of work (presses up to the expiry time, timers of other
    drops, new drops under other ids, scheduler firings, owner commands) a
    live drop stays live, with its times and real boxes and the claims of
    named members intact. *)
Theorem live_drop_stays_live es w id d :
  activeDrops (storage w) !! id = Some d →
  (∀ e, e ∈ es → leavesAlone id (expiresAt d) e) →
  ∃ d', activeDrops (storage (run es w)) !! id = Some d' ∧ laterDrop d d'.
Proof.
  revert w d. induction es as [|e es IH]; intros w d Hd Hes.
  { eauto using laterDrop_refl. }
  change (run (e :: es) w) with (run es (step e w)).
  destruct (step_live e id d w Hd) as (d' & Hd' & Hl); [apply Hes; by left|].
  destruct (IH _ d' Hd') as (d'' & ? & ?).
  - intros e' He'. destruct Hl as (_ & -> & _). apply Hes. by right.
  - eauto using laterDrop_trans.
Qed.

Lemma live_drop_stays_live_witness :
  is_Some (activeDrops (storage
             (run [Press (press "0" "A" 2000); SafetyFires "drop_9_9"; ToggleAuto true]
                  world0)) !! "drop_1000_7").
Proof.
  destruct (live_drop_stays_live
              [Press (press "0" "A" 2000); SafetyFires "drop_9_9"; ToggleAuto true]
              world0 "drop_1000_7" drop0) as (d' & Hd' & _).
  - vm_compute. reflexivity.
  - intros e He. repeat (apply elem_of_cons in He as [->|He]); simpl.
    + vm_compute. discriminate.
    + discriminate.
    + apply not_elem_of_nil.
    + by apply elem_of_nil in He.
  - by eexists.
Defined.

(** ** A drop whose message could not be sent *)

(** X10.  When [channel.send] throws, [sendGiftDrop] has already registered
    the drop: it stays in the in-memory active set while nothing is written
    to the file and neither removal timer is armed; the next write of the
    storage by any handler (here the owner's toggle) puts the unsent drop,
    without message reference, into the file. *)
Theorem failed_send_leaves_orphan env channel w :
  writable w = true →
  let w' := sendGiftDrop env channel None w in
  activeDrops (storage w') !! newDropId env = Some (newDrop env)
  ∧ disk w' = disk w
  ∧ timers w' = timers w
  ∧ trace w' = trace w ++ [RenderFailed (newDropId env)]
  ∧ ∃ snapshot,
      disk (toggle_auto true w') = Some snapshot
      ∧ activeDrops snapshot !! newDropId env = Some (newDrop env)
      ∧ messageId (newDrop env) = None.
Proof.
  intros Hw w'. subst w'. unfold sendGiftDrop, sendGiftDrop_resume. simpl.
  rewrite lookup_insert_eq. repeat split; try done.
  unfold toggle_auto, saveStorage. simpl. rewrite Hw. simpl.
  eexists. split; [done|]. simpl. by rewrite lookup_insert_eq.
Qed.

Lemma failed_send_leaves_orphan_witness :
  activeDrops (storage (sendGiftDrop env0 "c1" None worldIdle)) !! newDropId env0
  = Some (newDrop env0)
  ∧ timers (sendGiftDrop env0 "c1" None worldIdle) = [].
Proof.
  destruct (failed_send_leaves_orphan env0 "c1" worldIdle eq_refl)
    as (Hlive & _ & Htimers & _).
  split; [exact Hlive|exact Htimers].
Defined.

(** ** The scheduler keeps going *)

Lemma disarmFirst_cons cb t ts :
  disarmFirst cb (t :: ts)
  = if bool_decide (callback t = cb) then ts else t :: disarmFirst cb ts.
Proof. reflexivity. Qed.

Lemma disarmFirst_other cb ts :
  cb ≠ AutoDrop →
  filter (λ t, callback t = AutoDrop) (disarmFirst cb ts)
  = filter (λ t, callback t = AutoDrop) ts.
Proof.
  intros Hcb. induction ts as [|t ts IH]; [done|]. rewrite disarmFirst_cons.
  case_bool_decide as Ht.
  - rewrite (filter_cons_False _ t); [done|]. congruence.
  - destruct (decide (callback t = AutoDrop)) as [E|E].
    + by rewrite !(filter_cons_True _ t), IH.
    + by rewrite !(filter_cons_False _ t), IH.
Qed.

Lemma disarmFirst_auto ts :
  length (filter (λ t, callback t = AutoDrop) (disarmFirst AutoDrop ts))
  = pred (length (filter (λ t, callback t = AutoDrop) ts)).
Proof.
  induction ts as [|t ts IH]; [done|]. rewrite disarmFirst_cons.
  case_bool_decide as Ht.
  - by rewrite (filter_cons_True _ t).
  - by rewrite !(filter_cons_False _ t).
Qed.

Lemma sendGiftDrop_resume_schedulerTimers env channel sent w :
  schedulerTimers (sendGiftDrop_resume env channel sent w) = schedulerTimers w.
Proof.
  unfold sendGiftDrop_resume, schedulerTimers.
  destruct sent as [message|]; [|done]. simpl.
  destruct (activeDrops (storage w) !! newDropId env); [|done].
  world_simpl. rewrite <- app_assoc, filter_app. simpl.
  rewrite !filter_cons_False, filter_nil by done. by rewrite app_nil_r.
Qed.

Lemma step_schedulerTimers e w :
  (∀ steps r, e ≠ AutoDropFires steps r) →
  schedulerTimers (step e w) = schedulerTimers w.
Proof.
  intros Hother.
  destruct e as [i|env|env c s|d' c m del|d'|steps r|o c|o|o]; simpl.
  - unfold schedulerTimers.
    collect_inv i w o w';
      match goal with H : sameState _ _ |- _ => destruct H as (_ & _ & _ & Ht) end;
      rewrite Ht; by world_simpl.
  - done.
  - by rewrite sendGiftDrop_resume_schedulerTimers.
  - unfold fireCleanup, schedulerTimers. simpl.
    destruct (activeDrops (storage w) !! d'), del; world_simpl;
      by rewrite disarmFirst_other.
  - unfold fireSafetyExpiry, schedulerTimers. simpl.
    destruct (activeDrops (storage w) !! d'); world_simpl;
      by rewrite disarmFirst_other.
  - by destruct (Hother steps r).
  - unfold set_drop_channel, schedulerTimers.
    destruct o; [|done]. destruct c; by world_simpl.
  - unfold reset_counts, schedulerTimers. destruct o; by world_simpl.
  - unfold toggle_auto, schedulerTimers. destruct o; by world_simpl.
Qed.

(** Every step that can happen keeps the number of armed scheduler timers
    plus the number of running callbacks. *)
Lemma schedStep_balance e w running w' running' :
  schedStep e (w, running) = Some (w', running') →
  (length (schedulerTimers w') + running'
   = length (schedulerTimers w) + running)%nat.
Proof.
  destruct e as [e| |r].
  - destruct e as [i|env|env c s|d' c m del|d'|steps r|o c|o|o];
      cbv beta iota delta [schedStep];
      try (intros H;
           match type of H with
           | Some (step ?e _, _) = _ =>
               injection H as <- <-; do 2 f_equal;
               by apply (step_schedulerTimers e)
           end).
    destruct (schedulerTimers w) as [|t ts] eqn:Harmed; [done|].
    intros [= <- <-]. simpl.
    rewrite fireAutoDrop_schedulerTimers, length_app. simpl.
    unfold schedulerTimers in *. simpl. rewrite disarmFirst_auto, Harmed. simpl. lia.
  - simpl. destruct (schedulerTimers w) as [|t ts] eqn:Harmed; [done|].
    intros [= <- <-]. unfold schedulerTimers in *. simpl.
    rewrite disarmFirst_auto, Harmed. simpl. lia.
  - simpl. destruct running as [|rest]; [done|]. intros [= <- <-].
    rewrite scheduleNextDrop_schedulerTimers, length_app. simpl. lia.
Qed.

Lemma schedRun_balance es s s' :
  schedRun es s = Some s' →
  (length (schedulerTimers s'.1) + s'.2 = length (schedulerTimers s.1) + s.2)%nat.
Proof.
  revert s. induction es as [|e es IH]; intros s; simpl.
  - by intros [= <-].
  - destruct (schedStep e s) as [[w1 k1]|] eqn:Hstep; [|done].
    intros Hrun. rewrite (IH _ Hrun). destruct s as [w k].
    by apply (schedStep_balance e).
Qed.

(** X11.  Once the [ready] handler has started the scheduler (automatic
    drops enabled and a channel configured at start-up, no scheduler timer
    armed before), then at every later moment, the awaits of the callback
    included, either exactly one scheduler timer is armed and no callback is
    running, or none is armed and exactly one callback is on its way to its
    [finally] block, whatever presses, drops, removal timers and owner
    commands run in between: the chain never forks, and it goes on as soon
    as the running callback ends. *)
Theorem scheduler_keeps_one_timer es r w w' running :
  schedulerTimers w = [] →
  autoDropEnabled (botSettings (storage w)) = true →
  truthy (dropChannelId (botSettings (storage w))) = true →
  schedRun es (ready r w, 0%nat) = Some (w', running) →
  (length (schedulerTimers w') + running = 1)%nat.
Proof.
  intros Hnone Hon Hch Hrun.
  apply schedRun_balance in Hrun. simpl in Hrun. rewrite Hrun.
  unfold ready. rewrite Hon, Hch. simpl.
  by rewrite scheduleNextDrop_schedulerTimers, Hnone.
Qed.

Lemma scheduler_keeps_one_timer_witness :
  (λ s, (length (schedulerTimers s.1), s.2))
    <$> schedRun [CallbackStarts; Unit (DropBegin env0); Unit (Press (press "0" "A" 2000))]
                 (ready (1 # 2) worldAuto, 0%nat)
  = Some (0%nat, 1%nat).
Proof.
  destruct (schedRun _ _) as [[w' running]|] eqn:Hrun.
  - assert (running = 1%nat) as ->.
    { vm_compute in Hrun. by injection Hrun as _ <-. }
    simpl. do 2 f_equal. apply (Nat.add_cancel_r _ _ 1).
    apply (scheduler_keeps_one_timer _ (1 # 2) worldAuto w' 1 eq_refl eq_refl eq_refl Hrun).
  - vm_compute in Hrun. discriminate.
Defined.

(** ** The flag the scheduler never reads *)

Lemma sendGiftDrop_sameButFlag env channel sent w1 w2 :
  sameButFlag w1 w2 →
  sameButFlag (sendGiftDrop env channel sent w1) (sendGiftDrop env channel sent w2).
Proof.
  intros (Hc & Hd & Hch & Hw & Ht).
  unfold sendGiftDrop, sendGiftDrop_resume. destruct sent as [message|]; simpl.
  - rewrite !lookup_insert_eq. unfold sameButFlag. world_simpl.
    by rewrite Hc, Hd, Hch, Hw, Ht.
  - unfold sameButFlag. simpl. by rewrite Hc, Hd, Hch, Hw, Ht.
Qed.

Lemma dropInGuilds_sameButFlag steps w1 w2 :
  sameButFlag w1 w2 → sameButFlag (dropInGuilds steps w1) (dropInGuilds steps w2).
Proof.
  revert w1 w2. induction steps as [|[|env channel sent|] steps IH];
    intros w1 w2 Hw; simpl; auto using sendGiftDrop_sameButFlag.
Qed.

Lemma fireAutoDrop_sameButFlag steps r w1 w2 :
  sameButFlag w1 w2 → sameButFlag (fireAutoDrop steps r w1) (fireAutoDrop steps r w2).
Proof.
  intros Hw. pose proof Hw as (_ & _ & Hch & _). unfold fireAutoDrop. rewrite Hch.
  assert (sameButFlag
            (if truthy (dropChannelId (botSettings (storage w2)))
             then dropInGuilds steps w1 else w1)
            (if truthy (dropChannelId (botSettings (storage w2)))
             then dropInGuilds steps w2 else w2)) as (Hc & Hd & Hch' & Hwr & Ht).
  { destruct (truthy _); auto using dropInGuilds_sameButFlag. }
  unfold sameButFlag, scheduleNextDrop. simpl. by rewrite Hc, Hd, Hch', Hwr, Ht.
Qed.

(** X12.  Switching automatic drops off does not stop the scheduler while
    the process runs: its callback never reads the flag.  After the owner's
    [/toggle_auto] has set it to false, a firing does to the active drops,
    the tallies and the timers exactly what it does with the flag set,
    whatever the platform answers in the loop, and it re-arms itself. *)
Theorem toggle_off_does_not_stop_drops w steps r :
  autoDropEnabled (botSettings (storage w)) = true →
  let off := toggle_auto true w in
  autoDropEnabled (botSettings (storage off)) = false
  ∧ sameButFlag (fireAutoDrop steps r off) (fireAutoDrop steps r w)
  ∧ schedulerTimers (fireAutoDrop steps r off)
    = schedulerTimers w ++ [mkTimer (randInt 5 10 r * 60 * 1000) AutoDrop].
Proof.
  intros Hon off.
  assert (sameButFlag off w) as Hsame.
  { subst off. unfold toggle_auto, sameButFlag. by world_simpl. }
  split; [subst off; unfold toggle_auto; world_simpl; by rewrite Hon|].
  split; [by apply fireAutoDrop_sameButFlag|].
  rewrite fireAutoDrop_schedulerTimers. f_equal.
  unfold schedulerTimers. by destruct Hsame as (_ & _ & _ & _ & ->).
Qed.

Lemma toggle_off_does_not_stop_drops_witness :
  schedulerTimers (fireAutoDrop [Throws] (1 # 2) (toggle_auto true worldAuto))
  = [mkTimer (8 * 60 * 1000) AutoDrop].
Proof.
  exact (proj2 (proj2 (toggle_off_does_not_stop_drops worldAuto [Throws] (1 # 2) eq_refl))).
Defined.

(** ** Loading, field by field *)

Lemma getProp_setProp key key' v obj :
  Js.getProp key (Js.setProp key' v obj)
  = if String.eqb key' key then v else Js.getProp key obj.
Proof.
  destruct (String.eqb key' key) eqn:E.
  - apply String.eqb_eq in E. subst. apply getProp_setProp_eq.
  - apply String.eqb_neq in E. by apply getProp_setProp_ne.
Qed.

Lemma getProp_assign_props key props storage :
  Js.getProp key (foldl (λ acc kv, Js.setProp kv.1 kv.2 acc) storage props)
  = default (Js.getProp key storage) (lastProp key props).
Proof.
  revert storage. induction props as [|[k v] props IH]; intros storage; [done|].
  simpl. rewrite IH. destruct (lastProp key props); [done|]. simpl.
  rewrite getProp_setProp. by destruct (String.eqb k key).
Qed.

Lemma getProp_applyParsed key v storage :
  Js.getProp key (Js.applyParsed v storage)
  = let assigned := default (Js.getProp key storage) (lastProp key (Js.ownProps v)) in
    if defaulted key then Js.orElse assigned (Js.Obj []) else assigned.
Proof.
  unfold Js.applyParsed, Js.assign, defaulted. simpl.
  rewrite !getProp_setProp, !getProp_assign_props.
  destruct (String.eqb "botSettings" key) eqn:E1.
  { apply String.eqb_eq in E1. subst key.
    rewrite bool_decide_false by (by intros [?|?]). simpl.
    unfold Js.orElse. by destruct (Js.isTruthy _). }
  destruct (String.eqb "activeDrops" key) eqn:E2.
  { apply String.eqb_eq in E2. subst key.
    rewrite bool_decide_true by (by right). done. }
  destruct (String.eqb "userCounts" key) eqn:E3.
  { apply String.eqb_eq in E3. subst key.
    rewrite bool_decide_true by (by left). done. }
  apply String.eqb_neq in E2, E3.
  rewrite bool_decide_false by (intros [?|?]; congruence). done.
Qed.

Lemma orElse_idemp a : Js.orElse (Js.orElse a (Js.Obj [])) (Js.Obj []) = Js.orElse a (Js.Obj []).
Proof. unfold Js.orElse. destruct (Js.isTruthy a) eqn:E; simpl; by rewrite ?E. Qed.

(** X13.  [loadStorage] runs twice at start-up (once at load time, once in
    the [ready] handler).  When the first run found a file that parses, and
    so wrote nothing, the second run on that file leaves [userCounts],
    [activeDrops] and [botSettings] as the first run left them. *)
Theorem loadStorage_twice file storage key :
  (Js.loadStorage file storage).2 = false →
  storageField key →
  Js.getProp key (Js.loadStorage file (Js.loadStorage file storage).1).1
  = Js.getProp key (Js.loadStorage file storage).1.
Proof.
  intros Hquiet _.
  assert (∀ v, Js.getProp key (Js.applyParsed v (Js.applyParsed v storage))
               = Js.getProp key (Js.applyParsed v storage)) as Hparsed.
  { intros v. rewrite (getProp_applyParsed key v (Js.applyParsed v storage)).
    rewrite (getProp_applyParsed key v storage). simpl.
    destruct (lastProp key (Js.ownProps v)) as [x|]; [done|]. simpl.
    destruct (defaulted key); [|done]. apply orElse_idemp. }
  destruct file; simpl in *; try discriminate; auto.
Qed.

Lemma loadStorage_twice_witness :
  let file := Js.Parsed (Js.Obj [("userCounts", Js.Null); ("botSettings", Js.Null)]) in
  Js.getProp "userCounts"
    (Js.loadStorage file (Js.loadStorage file (Js.initialStorage None)).1).1
  = Js.Obj [].
Proof.
  intros file.
  rewrite (loadStorage_twice file (Js.initialStorage None) "userCounts");
    [reflexivity|reflexivity|by left].
Defined.

(** X14.  What a parsed document does to the three fields of [storage]:
    each takes the document's value for its key (the last occurrence wins)
    or, if the document lacks the key, keeps the value in memory; a falsy
    [userCounts] or [activeDrops] is then replaced by an empty object, while
    [botSettings] is left as it is, falsy or not. *)
Theorem loadStorage_field props storage key :
  storageField key →
  let loaded := (Js.loadStorage (Js.Parsed (Js.Obj props)) storage).1 in
  let merged := default (Js.getProp key storage) (lastProp key props) in
  Js.getProp key loaded
  = if defaulted key && negb (Js.isTruthy merged) then Js.Obj [] else merged.
Proof.
  intros _. simpl. rewrite getProp_applyParsed. simpl.
  destruct (defaulted key); [|done]. simpl. unfold Js.orElse.
  by destruct (Js.isTruthy _).
Qed.

Lemma loadStorage_field_witness :
  let props := [("activeDrops", Js.Num 0); ("userCounts", Js.Obj [("A", Js.Num 2)])] in
  let loaded := (Js.loadStorage (Js.Parsed (Js.Obj props)) (Js.initialStorage None)).1 in
  Js.getProp "activeDrops" loaded = Js.Obj []
  ∧ Js.getProp "userCounts" loaded = Js.Obj [("A", Js.Num 2)].
Proof.
  intros props loaded. subst loaded. split.
  - rewrite (loadStorage_field props (Js.initialStorage None) "activeDrops");
      [reflexivity|right; by left].
  - rewrite (loadStorage_field props (Js.initialStorage None) "userCounts");
      [reflexivity|by left].
Defined.

(** ** Commands and authority *)




(** X16.  Who counts as a moderator: the owner; or, when a moderator role is
    configured, a member who has it; or a member with one of the five
    management permissions.  The permission to moderate members alone does
    not make one, and without member data only the owner passes. *)
Theorem isModerator_spec cfg user member :
  isModerator cfg user member = true
  ↔ user = OWNER_ID cfg
    ∨ ∃ m, member = Some m
        ∧ ((∃ role, MOD_ROLE_ID cfg = Some role ∧ inRole m role = true)
           ∨ ∃ p, p ∈ [ManageGuild; ManageChannels; ManageMessages; KickMembers; BanMembers]
                  ∧ hasPermission m p = true).
Proof.
  unfold isModerator, isOwnerId, isModeratorByRole, isModeratorByPerms.
  case_bool_decide as Ho; [by split; [left|]|].
  split.
  - intros H. right.
    destruct member as [m|]; [|by destruct (MOD_ROLE_ID cfg)].
    exists m. split; [done|].
    destruct (MOD_ROLE_ID cfg) as [role|] eqn:Er.
    + destruct (inRole m role) eqn:Ei; [left; eauto|]. right.
      repeat (apply orb_true_iff in H as [H|H]); eexists; (split; [|exact H]);
        set_solver.
    + right.
      repeat (apply orb_true_iff in H as [H|H]); eexists; (split; [|exact H]);
        set_solver.
  - intros [?|(m & -> & [(role & Hr & Hi)|(p & Hp & Hh)])]; [done|..].
    + by rewrite Hr, Hi.
    + assert (hasPermission m ManageGuild || hasPermission m ManageChannels
              || hasPermission m ManageMessages || hasPermission m KickMembers
              || hasPermission m BanMembers = true) as ->.
      { repeat (apply elem_of_cons in Hp as [->|Hp]); rewrite ?Hh, ?orb_true_r;
          try done. by apply elem_of_nil in Hp. }
      by destruct (MOD_ROLE_ID cfg) as [role|]; [destruct (inRole m role)|].
Qed.

(** X17.  [/snowball] times the target out, for 60 seconds, exactly when
    the command is used in a server by a member who may moderate members or
    is the owner, the bot itself may moderate members, the target is a
    member of the server whose highest role is below the bot's, and the
    platform accepts the time-out. *)
Theorem snowball_spec cfg user member env seconds :
  snowball cfg user member env = SnowTimedOut seconds
  ↔ seconds = 60
    ∧ snowGuild env = true
    ∧ (∃ m, member = Some m
          ∧ (hasPermission m ModerateMembers = true ∨ user = OWNER_ID cfg))
    ∧ snowBotCanModerate env = true
    ∧ snowTargetFound env = true
    ∧ snowBotOutranksTarget env = true
    ∧ snowTimeoutSucceeds env = true.
Proof.
  unfold snowball, isOwnerId, TIMEOUT_DURATION_SECONDS.
  destruct env as [g b t o s]; simpl. split.
  - destruct g; simpl; [|done]. destruct member as [m|]; [|done].
    destruct (hasPermission m ModerateMembers) eqn:Hp; simpl;
      [|case_bool_decide as Ho; simpl; [|done]];
      destruct b, t, o, s; simpl; intros [= <-]; repeat split; eauto.
  - intros (-> & -> & (m & -> & Hauth) & -> & -> & -> & ->). simpl.
    destruct Hauth as [-> | ->]; simpl; [done|].
    rewrite bool_decide_true by done. simpl. by rewrite andb_false_r.
Qed.

(** ** The leaderboard *)

Lemma insertDesc_perm e l : insertDesc e l ≡ₚ e :: l.
Proof.
  induction l as [|x l IH]; [done|]. simpl. case_bool_decide; [|done].
  rewrite IH. apply Permutation_swap.
Qed.

Lemma sortDesc_perm l : sortDesc l ≡ₚ l.
Proof.
  induction l as [|e l IH]; [done|]. simpl. by rewrite insertDesc_perm, IH.
Qed.

Lemma insertDesc_sorted e l : countsDescend l → countsDescend (insertDesc e l).
Proof.
  unfold countsDescend. induction l as [|x l IH]; intros Hl; simpl.
  - repeat constructor.
  - apply StronglySorted_inv in Hl as [Hl Hx].
    case_bool_decide as Hgt.
    + constructor; [by apply IH|].
      rewrite insertDesc_perm. constructor; [lia|done].
    + constructor; [by constructor|].
      constructor; [lia|]. eapply Forall_impl; [exact Hx|]. simpl. intros y Hy. lia.
Qed.

Lemma sortDesc_sorted l : countsDescend (sortDesc l).
Proof.
  induction l as [|e l IH]; simpl; [constructor|]. by apply insertDesc_sorted.
Qed.

(** The sort is stable: entries with one and the same count keep their
    order. *)
Lemma insertDesc_stable c e l :
  filter (λ x, x.2 = c) (insertDesc e l) = filter (λ x, x.2 = c) (e :: l).
Proof.
  induction l as [|x l IH]; [done|]. simpl. case_bool_decide as Hgt; [|done].
  rewrite (filter_cons _ x (insertDesc e l)), IH, !filter_cons.
  repeat case_decide; try done. exfalso. lia.
Qed.

Lemma sortDesc_stable c l :
  filter (λ x, x.2 = c) (sortDesc l) = filter (λ x, x.2 = c) l.
Proof.
  induction l as [|e l IH]; [done|]. simpl. rewrite insertDesc_stable.
  destruct (decide (e.2 = c)).
  - by rewrite !(filter_cons_True _ e), IH.
  - by rewrite !(filter_cons_False _ e), IH.
Qed.

(** X18.  [/leaderboard] on a non-empty list of entries shows
    [min 20 n] of them, ranked 1, 2, ... in descending order of count; no
    entry left out has a higher count than one shown, and entries with
    equal counts appear in the order the entries came in.  On no entries it
    answers that there are no collectors. *)
Theorem leaderboard_spec entries :
  entries ≠ [] →
  leaderboard [] = None
  ∧ ∃ top rest,
      leaderboard entries = Some (imap (λ i e, (Z.of_nat i + 1, e.1, e.2)) top)
      ∧ top ++ rest ≡ₚ entries
      ∧ length top = (20 `min` length entries)%nat
      ∧ countsDescend top
      ∧ (∀ x y, x ∈ top → y ∈ rest → y.2 ≤ x.2)
      ∧ ∀ c, filter (λ e, e.2 = c) top `prefix_of` filter (λ e, e.2 = c) entries.
Proof.
  intros Hne. split; [done|].
  exists (take 20 (sortDesc entries)), (drop 20 (sortDesc entries)).
  pose proof (sortDesc_sorted entries) as Hsorted.
  rewrite <- (take_drop 20 (sortDesc entries)) in Hsorted.
  apply StronglySorted_app in Hsorted as (Hcross & Htop & _).
  repeat split.
  - unfold leaderboard. rewrite bool_decide_false; [done|].
    by destruct entries.
  - by rewrite take_drop, sortDesc_perm.
  - by rewrite length_take, (Permutation_length (sortDesc_perm entries)).
  - done.
  - intros x y Hx Hy. by apply Hcross.
  - intros c. rewrite <- (sortDesc_stable c entries).
    rewrite <- (take_drop 20 (sortDesc entries)) at 2.
    rewrite filter_app. by eexists.
Qed.

Lemma leaderboard_spec_witness :
  leaderboard [("a", 1); ("b", 3); ("c", 1); ("d", 2)]
  = Some [(1, "b", 3); (2, "d", 2); (3, "a", 1); (4, "c", 1)].
Proof.
  destruct (leaderboard_spec [("a", 1); ("b", 3); ("c", 1); ("d", 2)])
    as (_ & top & rest & Hboard & _); [discriminate|].
  reflexivity.
Defined.

(** ** Mentions *)

(** X19.  A mention by a human is always answered with one of the five
    prepared texts, whatever [Math.random()] returns; messages from bots and
    messages without the mention are never answered. *)
Theorem mention_reply_defined username r :
  unit_draw r →
  (∃ text, text ∈ mentionResponses username
           ∧ onMessage false true username r = Some text)
  ∧ ∀ mentioned r', onMessage true mentioned username r' = None
                    ∧ onMessage false false username r' = None.
Proof.
  intros Hr. split; [|done].
  unfold onMessage.
  pose proof (floor_scaled_range r (Z.of_nat (length (mentionResponses username))) Hr
                ltac:(simpl; lia)) as Hrange.
  simpl in Hrange.
  destruct (mentionResponses username
              !! Z.to_nat (floor_scaled r (Z.of_nat (length (mentionResponses username)))))
    as [text|] eqn:E.
  - exists text. split; [|done]. by eapply list_elem_of_lookup_2.
  - apply lookup_ge_None in E. simpl in E. lia.
Qed.

Lemma mention_reply_defined_witness :
  onMessage false true "Ann" (4 # 5)
  = Some "🎄 You rang? Santa’s always listening... and ready to deliver!".
Proof.
  destruct (mention_reply_defined "Ann" (4 # 5)) as ((text & _ & Ht) & _).
  - unfold unit_draw, Qle, Qlt. simpl. lia.
  - reflexivity.
Defined.

(** ** Resetting the tallies *)

(** X20.  After the owner's [/reset_counts], [/giftbox] answers 0 to
    everyone and the leaderboard has no collectors; the empty tallies are in
    the file, and drops, settings and timers are as they were. *)
Theorem reset_clears_every_tally cfg member w :
  writable w = true →
  let w1 := (onCommand cfg (OWNER_ID cfg) member CmdResetCounts w).2 in
  (∀ user m, (onCommand cfg user m CmdGiftbox w1).1 = ReplyCount 0)
  ∧ (∀ user m,
       (onCommand cfg user m (CmdLeaderboard (map_to_list (userCounts (storage w1)))) w1).1
       = ReplyBoard None)
  ∧ (userCounts <$> disk w1) = Some ∅
  ∧ activeDrops (storage w1) = activeDrops (storage w)
  ∧ botSettings (storage w1) = botSettings (storage w)
  ∧ timers w1 = timers w.
Proof.
  intros Hw w1. subst w1. simpl. unfold isOwnerId.
  rewrite bool_decide_true by done. simpl.
  unfold reset_counts, saveStorage. simpl. rewrite Hw. simpl.
  repeat split; done.
Qed.

Lemma reset_clears_every_tally_witness :
  let cfg := mkConfig "owner" None in
  (onCommand cfg "A" None CmdGiftbox
     (onCommand cfg "owner" None CmdResetCounts
        (collect (press "0" "A" 2000) world0).2).2).1
  = ReplyCount 0.
Proof.
  intros cfg.
  refine (proj1 (reset_clears_every_tally cfg None
                   (collect (press "0" "A" 2000) world0).2 _) "A" None).
  reflexivity.
Defined.

Lemma pairs_equally_likely_witness : length (runsWinning 1 3) = 4%nat.
Proof. apply (pairs_equally_likely 1 3); lia. Defined.

Lemma run_named_witness :
  dropsNamed (run [Press (press "0" "A" 2000); DropBegin env0; Press (press "1" "B" 2001)]
                  world0).
Proof.
  apply (run_named _ world0).
  - intros id d Hd k v Hk.
    change (({[ "drop_1000_7" := drop0 ]} : gmap string Drop) !! id = Some d) in Hd.
    apply lookup_singleton_Some in Hd as [_ <-]. simpl in Hk.
    by rewrite lookup_empty in Hk.
  - repeat constructor; simpl; discriminate.
Defined.

(** ** What a press leaves on file *)

(** X23.  Whatever a press changes in the active drops is on file when the
    handler is done: with a writable file, after any press either the
    in-memory storage is as it was, or the file holds a snapshot with
    exactly the active drops and settings now in memory (the claim or the
    removal was written first); only the tallies of the snapshot may lag
    behind. *)
Theorem press_changes_are_on_file i w :
  writable w = true →
  let w' := (collect i w).2 in
  storage w' = storage w
  ∨ ∃ snapshot,
      disk w' = Some snapshot
      ∧ activeDrops snapshot = activeDrops (storage w')
      ∧ botSettings snapshot = botSettings (storage w')
      ∧ userCounts snapshot = userCounts (storage w).
Proof.
  intros Hw. collect_inv i w o w';
    match goal with H : sameState _ _ |- _ => destruct H as (Hs & Hd & _) end;
    try (by left); right; rewrite Hs, Hd; world_simpl;
    rewrite saveStorage_disk by done; by eexists.
Qed.

Lemma press_changes_are_on_file_witness :
  (activeDrops <$> disk (collect (press "2" "B" 2000) world0).2)
  = Some (activeDrops (storage (collect (press "2" "B" 2000) world0).2)).
Proof.
  destruct (press_changes_are_on_file (press "2" "B" 2000) world0 eq_refl)
    as [Hsame|(snapshot & Hd & Ha & _)].
  - exfalso. vm_compute in Hsame. discriminate.
  - rewrite Hd. simpl. by rewrite Ha.
Defined.
(** ** The handlers on concrete inputs *)

Example shuffled_zero : shuffled (λ _, 0%Q) = [1; 2; 3; 0].
Proof. reflexivity. Qed.

Example validBoxes_zero : validBoxesOf (λ _, 0%Q) = ["box_1"; "box_2"].
Proof. reflexivity. Qed.

Example makeDropId_ex : makeDropId 1700000000000 (1 # 2) = "drop_1700000000000_5000".
Proof. vm_compute. reflexivity. Qed.

Example randInt_ex : randInt 5 10 (5 # 6) = 10.
Proof. reflexivity. Qed.

Example scenario_prize : (collect (press "0" "A" 2000) world0).1 = Prize 1.
Proof. vm_compute. reflexivity. Qed.

Example scenario_member_again :
  (collect (press "1" "A" 3000) (collect (press "0" "A" 2000) world0).2).1
  = MemberAlreadyClaimed.
Proof. vm_compute. reflexivity. Qed.

Example scenario_slot_again :
  (collect (press "0" "B" 3000) (collect (press "0" "A" 2000) world0).2).1
  = SlotAlreadyClaimed.
Proof. vm_compute. reflexivity. Qed.

Example scenario_troll : (collect (press "2" "B" 2000) world0).1 = Trollbox RoleAssigned.
Proof. vm_compute. reflexivity. Qed.

Example scenario_expired :
  (collect (press "0" "A" (1000 + 48 * 60 * 60 * 1000 + 1)) world0).1 = DropExpired.
Proof. vm_compute. reflexivity. Qed.

Example load_missing_file :
  Js.loadStorage Js.Absent (Js.initialStorage None) = (Js.initialStorage None, true).
Proof. reflexivity. Qed.

Example load_null_counts :
  Js.getProp "userCounts"
    (Js.loadStorage (Js.Parsed (Js.Obj [("userCounts", Js.Null)]))
                    (Js.initialStorage None)).1
  = Js.Obj [].
Proof. reflexivity. Qed.

Example load_missing_settings :
  Js.getProp "botSettings"
    (Js.loadStorage (Js.Parsed (Js.Obj [])) (Js.initialStorage (Some "c1"))).1
  = Js.Obj [("autoDropEnabled", Js.Bool true); ("dropChannelId", Js.Str "c1")].
Proof. reflexivity. Qed.

Example cleanup_removes_drop :
  activeDrops (storage (step (CleanupFires "drop_1000_7" "c1" "m1" true) world0)) = ∅.
Proof. vm_compute. reflexivity. Qed.
